(** * G2C: the game-state store and the validated number prompt

    A shallow embedding of [src/src/g2c.py]: the class [GameState]
    (a dict with a list of checkpoint snapshots), the prompts
    [InputHandler.get_number], [InputHandler.get_choice] and [get_yes_no],
    and the text layout of [Console.center_text], [Console.print_box] and
    [print_header].

    Python objects live in a heap of mutable objects addressed by
    locations; a Python value is either an immutable scalar or a reference
    to a heap object.  Methods are computations in a state-and-exception
    monad over that heap, so aliasing between the live dict, the snapshots
    and nested mutable values is what the heap says it is. *)

From Stdlib Require Import Ascii.
From stdpp Require Import gmap strings list fin_maps pretty.

(** ** Values, objects and the heap *)

Definition loc := positive.

Inductive value : Type :=
  | VNone
  | VBool (b : bool)
  | VInt (z : Z)
  | VStr (s : string)
  | VRef (l : loc).

(** The attributes of a [GameState] instance: [self.data] refers to a dict
    and [self.history] to a list. *)
Record game_state : Type := GameStateObj { data : loc; history : loc }.

Inductive object : Type :=
  | ODict (d : gmap string value)
  | OList (xs : list value)
  | OGameState (g : game_state).

Abbreviation heap := (gmap loc object).

Inductive exn : Type :=
  | IndexError
  | TypeError
  | AttributeError
  | KeyError
  | ValueError
  | EOFError.

(** [Raise e] is a Python exception leaving the call; [Wrong] is a
    dangling location, which no Python program can produce. *)
Inductive result (A : Type) : Type :=
  | Ok (a : A)
  | Raise (e : exn)
  | Wrong.
Arguments Ok {A} a.
Arguments Raise {A} e.
Arguments Wrong {A}.

Definition M (A : Type) : Type := heap → result (A * heap).

#[global] Instance M_ret : MRet M := λ A a σ, Ok (a, σ).
#[global] Instance M_bind : MBind M := λ A B f m σ,
  match m σ with
  | Ok (a, σ') => f a σ'
  | Raise e => Raise e
  | Wrong => Wrong
  end.

Definition raise {A : Type} (e : exn) : M A := λ _, Raise e.

(** ** Heap primitives *)

Definition alloc (o : object) : M loc := λ σ,
  let l := fresh (dom σ) in Ok (l, <[l := o]> σ).

Definition load (l : loc) : M object := λ σ,
  match σ !! l with
  | Some o => Ok (o, σ)
  | None => Wrong
  end.

Definition store (l : loc) (o : object) : M unit := λ σ,
  match σ !! l with
  | Some _ => Ok (tt, <[l := o]> σ)
  | None => Wrong
  end.

(** ** The Python built-ins the class calls *)

(** [d[key] = value] *)
Definition setitem (l : loc) (key : string) (v : value) : M unit :=
  o ← load l;
  match o with
  | ODict d => store l (ODict (<[key := v]> d))
  | OList _ => raise TypeError
  | OGameState _ => raise TypeError
  end.

(** What [d.get(key, default)] answers on the bindings [d]. *)
Definition lookup_default (d : gmap string value) (key : string)
    (default : value) : value :=
  match d !! key with Some v => v | None => default end.

(** [d.get(key, default)] *)
Definition dict_get (l : loc) (key : string) (default : value) : M value :=
  o ← load l;
  match o with
  | ODict d => mret (lookup_default d key default)
  | OList _ => raise AttributeError
  | OGameState _ => raise AttributeError
  end.

(** [x.copy()]: a new object with the same top-level contents.  Scalars
    and [GameState] instances have no [copy] method. *)
Definition copy (x : value) : M loc :=
  match x with
  | VRef l =>
      o ← load l;
      match o with
      | ODict d => alloc (ODict d)
      | OList xs => alloc (OList xs)
      | OGameState _ => raise AttributeError
      end
  | _ => raise AttributeError
  end.

(** [xs.append(v)] *)
Definition append (x : value) (v : value) : M unit :=
  match x with
  | VRef l =>
      o ← load l;
      match o with
      | OList xs => store l (OList (xs ++ [v]))
      | _ => raise AttributeError
      end
  | _ => raise AttributeError
  end.

(** Truth value of an object, as tested by [if x:]. *)
Definition truthy (l : loc) : M bool :=
  o ← load l;
  match o with
  | ODict d => mret (negb (bool_decide (d = ∅)))
  | OList xs => mret (negb (bool_decide (xs = [])))
  | OGameState _ => mret true
  end.

(** Python list indexing: a negative index counts from the end, and an
    index outside [-len, len) raises [IndexError]. *)
Definition list_index {A : Type} (xs : list A) (index : Z) : option A :=
  let n := Z.of_nat (length xs) in
  let i := if (index <? 0)%Z then (index + n)%Z else index in
  if ((i <? 0)%Z || (n <=? i)%Z)%bool then None else xs !! Z.to_nat i.

(** [xs[index]] *)
Definition getitem (l : loc) (index : Z) : M value :=
  o ← load l;
  match o with
  | OList xs =>
      match list_index xs index with
      | Some v => mret v
      | None => raise IndexError
      end
  | ODict _ => raise KeyError
  | OGameState _ => raise TypeError
  end.

(** ** class GameState *)

Module GameState.

Definition get_data (self : loc) : M loc :=
o ← load self;
match o with
| OGameState g => mret (data g)
| _ => raise AttributeError
end.

Definition get_history (self : loc) : M loc :=
o ← load self;
match o with
| OGameState g => mret (history g)
| _ => raise AttributeError
end.

Definition set_data (self : loc) (d : loc) : M unit :=
o ← load self;
match o with
| OGameState g => store self (OGameState {| data := d; history := history g |})
| _ => raise AttributeError
end.

(** [GameState()]: the two attributes are a new empty dict and a new
  empty list. *)
Definition __init__ : M loc :=
d ← alloc (ODict ∅);
h ← alloc (OList []);
alloc (OGameState {| data := d; history := h |}).

(** [self.data[key] = value] *)
Definition set (self : loc) (key : string) (v : value) : M unit :=
d ← get_data self;
setitem d key v.

(** [return self.data.get(key, default)] *)
Definition get (self : loc) (key : string) (default : value) : M value :=
d ← get_data self;
dict_get d key default.

(** [self.history.append(self.data.copy())] *)
Definition save_checkpoint (self : loc) : M unit :=
h ← get_history self;
d ← get_data self;
c ← copy (VRef d);
append (VRef h) (VRef c).

(** [if self.history: self.data = self.history[index].copy()] *)
Definition restore_checkpoint (self : loc) (index : Z) : M unit :=
h ← get_history self;
b ← truthy h;
if b : bool then
  h' ← get_history self;
  e ← getitem h' index;
  c ← copy e;
  set_data self c
else mret tt.

(** The defaults of the optional parameters. *)
Definition get_default : value := VNone.
Definition restore_checkpoint_default : Z := (-1)%Z.

End GameState.

(** ** Observing a store *)

Definition instance_at (σ : heap) (self : loc) : option game_state :=
  match σ !! self with
  | Some (OGameState g) => Some g
  | _ => None
  end.

Definition dict_at (σ : heap) (l : loc) : option (gmap string value) :=
  match σ !! l with
  | Some (ODict d) => Some d
  | _ => None
  end.

Definition list_at (σ : heap) (l : loc) : option (list value) :=
  match σ !! l with
  | Some (OList xs) => Some xs
  | _ => None
  end.

(** The current mapping: the contents of the dict [self.data] refers to. *)
Definition current (σ : heap) (self : loc) : option (gmap string value) :=
  g ← instance_at σ self; dict_at σ (data g).

(** The history: the elements of the list [self.history] refers to. *)
Definition entries (σ : heap) (self : loc) : option (list value) :=
  g ← instance_at σ self; list_at σ (history g).

(** The top-level bindings of a history entry. *)
Definition snapshot (σ : heap) (e : value) : option (gmap string value) :=
  match e with
  | VRef l => dict_at σ l
  | _ => None
  end.

(** The history with every entry replaced by its top-level bindings. *)
Definition history_view (σ : heap) (self : loc)
  : option (list (option (gmap string value))) :=
  match entries σ self with
  | Some hs => Some (snapshot σ <$> hs)
  | None => None
  end.

(** A history entry of a store built through the class: a reference to a
    dict that is not the live dict. *)
Definition is_snapshot (σ : heap) (g : game_state) (e : value) : Prop :=
  ∃ l m, e = VRef l ∧ l ≠ data g ∧ σ !! l = Some (ODict m).

(** [gs_at σ self g d hs]: in [σ], [self] is a [GameState] whose current
    mapping is [d] and whose history entries are [hs]; every entry is a dict
    of its own.  [__init__] establishes it and every method keeps it. *)
Record gs_at (σ : heap) (self : loc) (g : game_state)
    (d : gmap string value) (hs : list value) : Prop := GsAt {
  gs_self : σ !! self = Some (OGameState g);
  gs_data : σ !! data g = Some (ODict d);
  gs_history : σ !! history g = Some (OList hs);
  gs_entries : Forall (is_snapshot σ g) hs
}.

(** A sequence of [set] calls. *)
Fixpoint set_many (self : loc) (kvs : list (string * value)) : M unit :=
  match kvs with
  | [] => mret tt
  | (k, v) :: rest => GameState.set self k v;; set_many self rest
  end.

(** [dict_frame g σ σ']: every dict of [σ] other than the live one is still
    there in [σ'], with the same bindings. *)
Definition dict_frame (g : game_state) (σ σ' : heap) : Prop :=
  ∀ l m, l ≠ data g → σ !! l = Some (ODict m) → σ' !! l = Some (ODict m).

(** The bindings after a sequence of assignments. *)
Definition assign_all (d : gmap string value) (kvs : list (string * value))
  : gmap string value :=
  foldl (λ m kv, <[kv.1 := kv.2]> m) d kvs.

(** A call of one of the four methods, and a program made of such calls. *)
Inductive call : Type :=
  | CallSet (key : string) (v : value)
  | CallGet (key : string) (default : value)
  | CallSave
  | CallRestore (index : Z).

Definition perform (self : loc) (c : call) : M unit :=
  match c with
  | CallSet key v => GameState.set self key v
  | CallGet key default => GameState.get self key default;; mret tt
  | CallSave => GameState.save_checkpoint self
  | CallRestore index => GameState.restore_checkpoint self index
  end.

Fixpoint perform_all (self : loc) (cs : list call) : M unit :=
  match cs with
  | [] => mret tt
  | c :: rest => perform self c;; perform_all self rest
  end.

(** The number of [save_checkpoint] calls in a program. *)
Fixpoint count_saves (cs : list call) : nat :=
  match cs with
  | [] => 0
  | CallSave :: rest => S (count_saves rest)
  | _ :: rest => count_saves rest
  end.

(** Two [GameState] objects in one heap that share neither their dict nor
    their history list, and of which neither holds the live dict of the
    other as a history entry. *)
Record separate (σ : heap) (s1 s2 : loc) (g1 g2 : game_state)
    (d1 d2 : gmap string value) (hs1 hs2 : list value) : Prop := Separate {
  sep_left : gs_at σ s1 g1 d1 hs1;
  sep_right : gs_at σ s2 g2 d2 hs2;
  sep_data : data g1 ≠ data g2;
  sep_history : history g1 ≠ history g2;
  sep_left_entries : Forall (λ e, e ≠ VRef (data g2)) hs1;
  sep_right_entries : Forall (λ e, e ≠ VRef (data g1)) hs2
}.

(** Two stores side by side, the second with one checkpoint. *)
Definition two_heap : heap :=
  <[1%positive := ODict (<["score" := VInt 1]> ∅)]>
  (<[2%positive := OList []]>
  (<[3%positive := OGameState {| data := 1%positive; history := 2%positive |}]>
  (<[4%positive := ODict (<["score" := VInt 2]> ∅)]>
  (<[5%positive := OList [VRef 7%positive]]>
  (<[6%positive := OGameState {| data := 4%positive; history := 5%positive |}]>
  (<[7%positive := ODict ∅]> ∅)))))).

(** The store left by [GameState(); set("score", 1000); save_checkpoint();
    set("score", 2000)] on an empty heap. *)
Definition played_heap : heap :=
  <[1%positive := ODict (<["score" := VInt 2000]> ∅)]>
  (<[2%positive := OList [VRef 4%positive]]>
  (<[3%positive := OGameState {| data := 1%positive; history := 2%positive |}]>
  (<[4%positive := ODict (<["score" := VInt 1000]> ∅)]> ∅))).

Definition played_calls : list call :=
  [CallSet "score" (VInt 1000); CallSave; CallSet "score" (VInt 2000)].

(** In-place mutation of a nested list reached through the current
    mapping: [self.get(key).append(v)]. *)
Definition append_through (self : loc) (key : string) (v : value) : M unit :=
  x ← GameState.get self key GameState.get_default;
  append x v.

(** A store with one checkpoint, as left by
    [set("score", 1000); save_checkpoint(); set("score", 2000)] with a
    list of items added. *)
Definition demo_heap : heap :=
  <[1%positive := ODict (<["items" := VRef 5%positive]>
                         (<["score" := VInt 2000]> ∅))]>
  (<[2%positive := OList [VRef 4%positive]]>
  (<[3%positive := OGameState {| data := 1%positive; history := 2%positive |}]>
  (<[4%positive := ODict (<["score" := VInt 1000]> ∅)]>
  (<[5%positive := OList [VStr "sword"]]> ∅)))).

Definition demo_game : game_state :=
  {| data := 1%positive; history := 2%positive |}.

Definition demo_data : gmap string value :=
  <["items" := VRef 5%positive]> (<["score" := VInt 2000]> ∅).

(** A store with no checkpoint. *)
Definition fresh_heap : heap :=
  <[1%positive := ODict (<["score" := VInt 0]> ∅)]>
  (<[2%positive := OList []]>
  (<[3%positive := OGameState {| data := 1%positive; history := 2%positive |}]> ∅)).

(** ** InputHandler.get_number *)

(** The console: the lines still to be read from standard input, and what
    has been written to standard output, oldest first. *)
Record console : Type := Console { stdin : list string; stdout : list string }.

Module InputHandler.
Section get_number.

(** The built-in [int(text)]: the integer a line denotes, or [None] where
  Python raises [ValueError]. *)
Variable int : string → option Z.

(** [min_val is not None and value < min_val] *)
Definition below (min_val : option Z) (value : Z) : bool :=
match min_val with
| Some m => (value <? m)%Z
| None => false
end.

(** [max_val is not None and value > max_val] *)
Definition above (max_val : option Z) (value : Z) : bool :=
match max_val with
| Some m => (value >? m)%Z
| None => false
end.

(** The loop [while True] of [get_number].  Every iteration calls
  [input(prompt)] once, so it reads one line; the recursion follows the
  lines left on standard input, and [input] raises [EOFError], which the
  loop does not catch, when none is left. *)
Fixpoint get_number_loop (prompt : string) (min_val max_val : option Z)
  (lines : list string) (out : list string) : result (Z * console) :=
match lines with
| [] => Raise EOFError
| line :: rest =>
    let out := out ++ [prompt] in
    match int line with
    | Some value =>
        if below min_val value then
          get_number_loop prompt min_val max_val rest
            (out ++ ["Value must be at least " +:+
                       pretty (default 0%Z min_val)])
        else if above max_val value then
          get_number_loop prompt min_val max_val rest
            (out ++ ["Value must be at most " +:+
                       pretty (default 0%Z max_val)])
        else Ok (value, {| stdin := rest; stdout := out |})
    | None =>
        get_number_loop prompt min_val max_val rest
          (out ++ ["Please enter a valid number."])
    end
end.

Definition get_number (prompt : string) (min_val max_val : option Z)
  (c : console) : result (Z * console) :=
get_number_loop prompt min_val max_val (stdin c) (stdout c).

(** [value] passes both range checks. *)
Definition in_range (min_val max_val : option Z) (value : Z) : Prop :=
(∀ m, min_val = Some m → (m ≤ value)%Z) ∧
(∀ m, max_val = Some m → (value ≤ m)%Z).

(** A line the loop does not return: it does not parse, or the integer
  it denotes violates a bound. *)
Definition rejected (min_val max_val : option Z) (line : string) : Prop :=
∀ z, int line = Some z → ¬ in_range min_val max_val z.

End get_number.

Section get_choice.

(** The built-in [str.lower]. *)
Variable lower : string → string.

(** [user_input.lower()] unless [case_sensitive]. *)
Definition fold_case (case_sensitive : bool) (text : string) : string :=
  if case_sensitive then text else lower text.

(** The loop [while True] of [get_choice]; [choices] is the list the loop
    tests against, lowercased already when the match is case-insensitive. *)
Fixpoint get_choice_loop (prompt : string) (choices : list string)
    (case_sensitive : bool) (lines : list string) (out : list string)
  : result (string * console) :=
  match lines with
  | [] => Raise EOFError
  | line :: rest =>
      let out := out ++ [prompt] in
      let user_input := fold_case case_sensitive line in
      if bool_decide (user_input ∈ choices) then
        Ok (user_input, {| stdin := rest; stdout := out |})
      else
        get_choice_loop prompt choices case_sensitive rest
          (out ++ ["Invalid choice. Please choose from: " +:+
                     String.concat ", " choices])
  end.

Definition get_choice (prompt : string) (choices : list string)
    (case_sensitive : bool) (c : console) : result (string * console) :=
  let choices :=
    if case_sensitive then choices else lower <$> choices in
  get_choice_loop prompt choices case_sensitive (stdin c) (stdout c).

End get_choice.
End InputHandler.

(** [get_yes_no(prompt)] *)
Definition get_yes_no (lower : string → string) (prompt : string)
    (c : console) : result (bool * console) :=
  match InputHandler.get_choice lower (prompt +:+ " (y/n): ")
          ["y"; "yes"; "n"; "no"] false c with
  | Ok (choice, c') => Ok (bool_decide (choice ∈ ["y"; "yes"]), c')
  | Raise e => Raise e
  | Wrong => Wrong
  end.


(** What is written while the lines [skipped] are read and rejected:
    the prompt, then the reply, for each of them. *)
Definition rejections (prompt : string) (reply : string → string)
    (skipped : list string) : list string :=
  concat ((λ line, [prompt; reply line]) <$> skipped).

(** A model of [str.lower] on ASCII text. *)
Definition lower_char (a : ascii) : ascii :=
  let n := nat_of_ascii a in
  if ((65 <=? n) && (n <=? 90))%nat then ascii_of_nat (n + 32) else a.

Fixpoint py_lower (text : string) : string :=
  match text with
  | EmptyString => EmptyString
  | String a rest => String (lower_char a) (py_lower rest)
  end.

(** A model of the built-in [int] on ASCII text in base 10: surrounding
    white space is dropped, one sign may come first, and single underscores
    may separate digits. *)
Definition is_space (a : ascii) : bool :=
  let n := nat_of_ascii a in
  ((9 <=? n) && (n <=? 13) || (28 <=? n) && (n <=? 32))%nat.

Definition digit_of (a : ascii) : option Z :=
  let n := nat_of_ascii a in
  if ((48 <=? n) && (n <=? 57))%nat then Some (Z.of_nat (n - 48)) else None.

Fixpoint digits (acc : Z) (after_digit : bool) (s : list ascii) : option Z :=
  match s with
  | [] => if after_digit then Some acc else None
  | a :: rest =>
      match digit_of a with
      | Some n => digits (10 * acc + n)%Z true rest
      | None =>
          if (Ascii.eqb a "_" && after_digit)%bool
          then digits acc false rest
          else None
      end
  end.

Fixpoint lstrip (s : list ascii) : list ascii :=
  match s with
  | a :: rest => if is_space a then lstrip rest else s
  | [] => []
  end.

Definition strip (s : list ascii) : list ascii :=
  rev (lstrip (rev (lstrip s))).

Definition py_int (text : string) : option Z :=
  match strip (String.list_ascii_of_string text) with
  | "-"%char :: rest => Z.opp <$> digits 0 false rest
  | "+"%char :: rest => digits 0 false rest
  | rest => digits 0 false rest
  end.

(** ** class Console: text layout *)

(** The string built-ins the layout code calls. *)

(** [s * n], empty when [n <= 0]. *)
Fixpoint str_repeat (s : string) (n : nat) : string :=
  match n with
  | 0 => ""
  | S n => s +:+ str_repeat s n
  end.

Definition str_mul (s : string) (n : Z) : string := str_repeat s (Z.to_nat n).

Definition len (s : string) : Z := Z.of_nat (String.length s).

(** [s.ljust(width)] *)
Definition ljust (s : string) (width : Z) : string :=
  if (width <=? len s)%Z then s
  else s +:+ str_mul " " (width - len s).

(** [s.center(width)]: of an odd number of padding spaces the extra one goes
    to the left when [width] is odd and to the right when it is even. *)
Definition center (s : string) (width : Z) : string :=
  if (width <=? len s)%Z then s
  else
    let marg := (width - len s)%Z in
    let left := (marg / 2 + Z.land (Z.land marg width) 1)%Z in
    str_mul " " left +:+ s +:+ str_mul " " (marg - left).

(** [s.split(sep)] for a separator of one character. *)
Fixpoint split_on (sep : ascii) (s : string) : list string :=
  match s with
  | EmptyString => [""]
  | String a rest =>
      if Ascii.eqb a sep then "" :: split_on sep rest
      else match split_on sep rest with
           | first :: others => String a first :: others
           | [] => [String a ""]
           end
  end.

(** The terminal as [os.get_terminal_size()] reports it: [Some (columns,
    lines)], or [None] when the call raises [OSError]. *)
Definition terminal : Type := option (nat * nat).

Module ConsoleUtil.

(** [Console.get_size()] *)
Definition get_size (t : terminal) : Z * Z :=
  match t with
  | Some (columns, lines) => (Z.of_nat columns, Z.of_nat lines)
  | None => (80%Z, 24%Z)
  end.

(** [Console.center_text(text, width)]; [width] is [None] when the caller
    passes none. *)
Definition center_text (t : terminal) (text : string) (width : option Z)
  : string :=
  let width :=
    match width with
    | None => fst (get_size t)
    | Some width => width
    end in
  center text width.

Section print_box.

(** The built-in [str.split()]: the words of a line. *)
Variable split : string → list string.

(** [f"{char}{current_line.ljust(content_width + 2 * padding)}{char}"] *)
Definition boxed_left (char : string) (content_width padding : Z)
    (current_line : string) : string :=
  char +:+ ljust current_line (content_width + 2 * padding) +:+ char.

(** [f"{char}{line.center(content_width + 2 * padding)}{char}"] *)
Definition boxed_center (char : string) (content_width padding : Z)
    (line : string) : string :=
  char +:+ center line (content_width + 2 * padding) +:+ char.

(** The loop [for word in words] with the [if current_line:] that follows
    it: the lines it prints, given the words left and [current_line]. *)
Fixpoint wrap (char : string) (content_width padding : Z)
    (words : list string) (current_line : string) : list string :=
  match words with
  | [] =>
      if bool_decide (current_line = "") then []
      else [boxed_left char content_width padding current_line]
  | word :: rest =>
      if (len (current_line +:+ word) <=? content_width)%Z then
        wrap char content_width padding rest (current_line +:+ word +:+ " ")
      else
        boxed_left char content_width padding current_line
          :: wrap char content_width padding rest (word +:+ " ")
  end.

(** The body of [for line in lines]: what is printed for one line. *)
Definition box_line (char : string) (content_width padding : Z)
    (line : string) : list string :=
  if (len line >? content_width)%Z then
    wrap char content_width padding (split line) ""
  else [boxed_center char content_width padding line].

(** All the lines [print_box] prints, in order. *)
Definition box_lines (t : terminal) (text : string) (char : string)
    (padding : Z) : list string :=
  let width := fst (get_size t) in
  let content_width := (width - 2 * padding - 2)%Z in
  [str_mul char width]
    ++ concat (box_line char content_width padding <$> split_on "010" text)
    ++ [str_mul char width].

(** [Console.print_box(text, char, padding)] *)
Definition print_box (t : terminal) (text : string) (char : string)
    (padding : Z) (c : console) : console :=
  {| stdin := stdin c;
     stdout := stdout c ++ box_lines t text char padding |}.

End print_box.
End ConsoleUtil.

(** [print_header(title)] *)
Definition print_header (split : string → list string) (t : terminal)
    (title : string) (c : console) : console :=
  ConsoleUtil.print_box split t title "=" 2 c.

(** The line a list of words is collected into: every word followed by a
    space. *)
Definition line_of (words : list string) : string :=
  foldr (λ word acc, word +:+ " " +:+ acc) "" words.

Definition run {A : Type} (m : M A) : result (A * heap) := m ∅.

Definition example_score : M value :=
  self ← GameState.__init__;
  GameState.set self "score" (VInt 1000);;
  GameState.save_checkpoint self;;
  GameState.set self "score" (VInt 2000);;
  GameState.restore_checkpoint self GameState.restore_checkpoint_default;;
  GameState.get self "score" GameState.get_default.

Definition fst_result {A : Type} (r : result (A * heap)) : result A :=
  match r with
  | Ok (a, _) => Ok a
  | Raise e => Raise e
  | Wrong => Wrong
  end.


(** ** How each method runs on a well-formed store *)

Lemma fresh_not_bound (σ : heap) (l : loc) (o : object) :
  σ !! l = Some o → l ≠ fresh (dom σ).
Proof.
  intros Hl ->.
  apply (is_fresh (dom σ)), elem_of_dom. by exists o.
Qed.

Lemma list_index_nonempty {A : Type} (xs : list A) (index : Z) (x : A) :
  list_index xs index = Some x → xs ≠ [].
Proof.
  intros H ->. unfold list_index in H.
  case_match; [done|]. by rewrite lookup_nil in H.
Qed.

Lemma list_index_in_range {A : Type} (xs : list A) (index : Z) :
  (- Z.of_nat (length xs) ≤ index < Z.of_nat (length xs))%Z →
  is_Some (list_index xs index).
Proof.
  intros Hr. unfold list_index.
  destruct (Z.ltb_spec index 0);
    (rewrite orb_false_intro by (first [apply Z.ltb_ge | apply Z.leb_gt]; lia));
    apply lookup_lt_is_Some; lia.
Qed.

Lemma list_index_out_of_range {A : Type} (xs : list A) (index : Z) :
  (index < - Z.of_nat (length xs) ∨ Z.of_nat (length xs) ≤ index)%Z →
  list_index xs index = None.
Proof.
  intros Hr. unfold list_index.
  destruct (Z.ltb_spec index 0).
  - destruct (Z.ltb_spec (index + Z.of_nat (length xs)) 0); [done|lia].
  - destruct (Z.ltb_spec index 0); [lia|].
    destruct (Z.leb_spec (Z.of_nat (length xs)) index); [done|lia].
Qed.

Lemma list_index_from_end {A : Type} (xs : list A) (i : nat) :
  1 ≤ i ≤ length xs →
  list_index xs (- Z.of_nat i) = xs !! (length xs - i).
Proof.
  intros Hr. unfold list_index.
  destruct (Z.ltb_spec (- Z.of_nat i) 0); [|lia].
  rewrite orb_false_intro by (first [apply Z.ltb_ge | apply Z.leb_gt]; lia).
  f_equal. lia.
Qed.

Lemma list_index_last {A : Type} (xs : list A) :
  xs ≠ [] → list_index xs (-1) = last xs.
Proof.
  intros Hne. rewrite last_lookup.
  assert (1 ≤ length xs) by (destruct xs; [done|simpl; lia]).
  change (-1)%Z with (- Z.of_nat 1)%Z. rewrite list_index_from_end by lia.
  f_equal. lia.
Qed.

Ltac unfold_m :=
  unfold GameState.set, GameState.get, GameState.save_checkpoint,
    GameState.restore_checkpoint, GameState.get_data, GameState.get_history,
    GameState.set_data, setitem, dict_get, copy, append, truthy, getitem,
    load, store, alloc, raise, mbind, M_bind, mret, M_ret.

Ltac step_m :=
  cbv beta iota;
  repeat match goal with
    | H : ?σ !! ?l = Some _ |- context [?σ !! ?l] => rewrite H; cbv beta iota
    | |- context [<[fresh (dom ?σ) := ?o]> ?σ !! ?l] =>
        rewrite (lookup_insert_ne σ (fresh (dom σ)) l o)
          by (symmetry; eapply fresh_not_bound; eassumption);
        cbv beta iota
    end.

Section methods.
Context {σ : heap} {self : loc} {g : game_state}
  {d : gmap string value} {hs : list value}.
Hypothesis Hgs : gs_at σ self g d hs.

Lemma self_ne_data : self ≠ data g.
Proof. destruct Hgs. congruence. Qed.

Lemma self_ne_history : self ≠ history g.
Proof. destruct Hgs. congruence. Qed.

Lemma history_ne_data : history g ≠ data g.
Proof. destruct Hgs. congruence. Qed.

Lemma set_run (k : string) (v : value) :
  GameState.set self k v σ = Ok (tt, <[data g := ODict (<[k := v]> d)]> σ).
Proof.
  destruct Hgs as [Hs Hd _ _]. unfold_m. by step_m.
Qed.

Lemma set_keeps (k : string) (v : value) :
  gs_at (<[data g := ODict (<[k := v]> d)]> σ) self g (<[k := v]> d) hs.
Proof.
  pose proof self_ne_data. pose proof history_ne_data.
  destruct Hgs as [Hs Hd Hh He]. split.
  - by rewrite lookup_insert_ne.
  - by rewrite lookup_insert_eq.
  - by rewrite lookup_insert_ne.
  - eapply Forall_impl; [exact He|].
    intros e (l & m & -> & Hne & Hl). exists l, m.
    by rewrite lookup_insert_ne.
Qed.

Lemma get_run (k : string) (default : value) :
  GameState.get self k default σ = Ok (lookup_default d k default, σ).
Proof.
  destruct Hgs as [Hs Hd _ _]. unfold_m. by step_m.
Qed.

Lemma save_run :
  GameState.save_checkpoint self σ =
    Ok (tt, <[history g := OList (hs ++ [VRef (fresh (dom σ))])]>
              (<[fresh (dom σ) := ODict d]> σ)).
Proof.
  destruct Hgs as [Hs Hd Hh _]. unfold_m. by step_m.
Qed.

Lemma save_keeps :
  gs_at (<[history g := OList (hs ++ [VRef (fresh (dom σ))])]>
           (<[fresh (dom σ) := ODict d]> σ))
    self g d (hs ++ [VRef (fresh (dom σ))]).
Proof.
  pose proof self_ne_history. pose proof history_ne_data.
  destruct Hgs as [Hs Hd Hh He].
  pose proof (fresh_not_bound _ _ _ Hs).
  pose proof (fresh_not_bound _ _ _ Hd).
  pose proof (fresh_not_bound _ _ _ Hh).
  split.
  - by rewrite !lookup_insert_ne by congruence.
  - by rewrite !lookup_insert_ne by congruence.
  - by rewrite lookup_insert_eq.
  - apply Forall_app. split.
    + eapply Forall_impl; [exact He|].
      intros e (l & m & -> & Hne & Hl). exists l, m.
      pose proof (fresh_not_bound _ _ _ Hl).
      by rewrite !lookup_insert_ne by congruence.
    + apply Forall_singleton. exists (fresh (dom σ)), d.
      rewrite lookup_insert_ne, lookup_insert_eq by congruence.
      repeat split; congruence.
Qed.

Lemma entry_is_snapshot (index : Z) (e : value) :
  list_index hs index = Some e → is_snapshot σ g e.
Proof.
  destruct Hgs as [_ _ _ He]. unfold list_index.
  case_match; [done|]. intros Hl.
  eapply Forall_lookup_1; eauto.
Qed.

Lemma restore_empty_run (index : Z) :
  hs = [] → GameState.restore_checkpoint self index σ = Ok (tt, σ).
Proof.
  intros E. destruct Hgs as [Hs _ Hh _]. rewrite E in Hh.
  unfold_m. by step_m.
Qed.

Lemma restore_run (index : Z) (l : loc) (m : gmap string value) :
  list_index hs index = Some (VRef l) →
  σ !! l = Some (ODict m) →
  GameState.restore_checkpoint self index σ =
    Ok (tt, <[self := OGameState {| data := fresh (dom σ);
                                    history := history g |}]>
              (<[fresh (dom σ) := ODict m]> σ)).
Proof.
  intros Hi Hl. destruct Hgs as [Hs _ Hh _]. unfold_m.
  step_m.
  rewrite bool_decide_eq_false_2 by (eapply list_index_nonempty, Hi).
  cbn [negb]. step_m.
  rewrite Hi. by step_m.
Qed.

Lemma restore_out_of_range_run (index : Z) :
  hs ≠ [] → list_index hs index = None →
  GameState.restore_checkpoint self index σ = Raise IndexError.
Proof.
  intros Hne Hi. destruct Hgs as [Hs _ Hh _]. unfold_m.
  step_m.
  rewrite bool_decide_eq_false_2 by done. cbn [negb]. step_m.
  by rewrite Hi.
Qed.

Lemma restore_keeps (l : loc) (m : gmap string value) :
  σ !! l = Some (ODict m) →
  gs_at (<[self := OGameState {| data := fresh (dom σ);
                                 history := history g |}]>
           (<[fresh (dom σ) := ODict m]> σ))
    self {| data := fresh (dom σ); history := history g |} m hs.
Proof.
  intros Hl. pose proof self_ne_history.
  destruct Hgs as [Hs Hd Hh He].
  pose proof (fresh_not_bound _ _ _ Hs).
  pose proof (fresh_not_bound _ _ _ Hh).
  split; cbn [data history].
  - by rewrite lookup_insert_eq.
  - by rewrite lookup_insert_ne, lookup_insert_eq by congruence.
  - by rewrite !lookup_insert_ne by congruence.
  - eapply Forall_impl; [exact He|].
    intros e (l' & m' & -> & Hne & Hl'). exists l', m'.
    pose proof (fresh_not_bound _ _ _ Hl').
    cbn [data]. rewrite !lookup_insert_ne by congruence.
    repeat split; congruence.
Qed.

End methods.

Section frames.
Context {σ : heap} {self : loc} {g : game_state}
  {d : gmap string value} {hs : list value}.
Hypothesis Hgs : gs_at σ self g d hs.

Lemma set_frame (d' : gmap string value) :
  dict_frame g σ (<[data g := ODict d']> σ).
Proof. intros l m Hne Hl. by rewrite lookup_insert_ne. Qed.

Lemma save_frame :
  dict_frame g σ
    (<[history g := OList (hs ++ [VRef (fresh (dom σ))])]>
       (<[fresh (dom σ) := ODict d]> σ)).
Proof.
  intros l m Hne Hl. destruct Hgs as [_ _ Hh _].
  pose proof (fresh_not_bound _ _ _ Hl).
  by rewrite !lookup_insert_ne by congruence.
Qed.

Lemma restore_frame (m' : gmap string value) :
  dict_frame g σ
    (<[self := OGameState {| data := fresh (dom σ);
                             history := history g |}]>
       (<[fresh (dom σ) := ODict m']> σ)).
Proof.
  intros l m Hne Hl. destruct Hgs as [Hs _ _ _].
  pose proof (fresh_not_bound _ _ _ Hl).
  by rewrite !lookup_insert_ne by congruence.
Qed.

Lemma snapshot_frame (σ' : heap) (e : value) :
  dict_frame g σ σ' → is_snapshot σ g e → snapshot σ' e = snapshot σ e.
Proof.
  intros Hf (l & m & -> & Hne & Hl). unfold snapshot, dict_at.
  by rewrite (Hf l m Hne Hl), Hl.
Qed.

Lemma snapshots_frame (σ' : heap) :
  dict_frame g σ σ' → snapshot σ' <$> hs = snapshot σ <$> hs.
Proof.
  intros Hf. apply Forall_fmap_ext_1.
  eapply Forall_impl; [apply Hgs|].
  intros e He. by apply snapshot_frame.
Qed.

Lemma snapshots_bound : Forall is_Some (snapshot σ <$> hs).
Proof.
  rewrite Forall_fmap. eapply Forall_impl; [apply Hgs|].
  intros e (l & m & -> & _ & Hl). unfold snapshot, dict_at; cbn.
  rewrite Hl. by eexists.
Qed.

Lemma current_bound : current σ self = Some d.
Proof.
  destruct Hgs as [Hs Hd _ _]. unfold current, instance_at, dict_at.
  rewrite Hs. cbn. by rewrite Hd.
Qed.

Lemma entries_bound : entries σ self = Some hs.
Proof.
  destruct Hgs as [Hs _ Hh _]. unfold entries, instance_at, list_at.
  rewrite Hs. cbn. by rewrite Hh.
Qed.

Lemma history_view_bound :
  history_view σ self = Some (snapshot σ <$> hs).
Proof. unfold history_view. by rewrite entries_bound. Qed.

End frames.

Lemma set_many_run (kvs : list (string * value)) :
  ∀ σ self g d hs, gs_at σ self g d hs →
    set_many self kvs σ = Ok (tt, <[data g := ODict (assign_all d kvs)]> σ) ∧
    gs_at (<[data g := ODict (assign_all d kvs)]> σ) self g
      (assign_all d kvs) hs.
Proof.
  induction kvs as [|[k v] kvs IH]; intros σ self g d hs Hgs.
  - cbn. rewrite insert_id by apply Hgs. done.
  - pose proof (set_keeps Hgs k v) as Hgs1.
    destruct (IH _ _ _ _ _ Hgs1) as [Hrun Hkeep].
    rewrite insert_insert_eq in Hrun, Hkeep.
    split; [|exact Hkeep].
    cbn [set_many]. unfold mbind, M_bind at 1.
    by rewrite (set_run Hgs k v).
Qed.

Lemma init_run (σ : heap) :
  ∃ self g σ', GameState.__init__ σ = Ok (self, σ') ∧ gs_at σ' self g ∅ [].
Proof.
  set (σ1 := <[fresh (dom σ) := ODict ∅]> σ).
  set (σ2 := <[fresh (dom σ1) := OList []]> σ1).
  exists (fresh (dom σ2)),
    {| data := fresh (dom σ); history := fresh (dom σ1) |},
    (<[fresh (dom σ2) :=
        OGameState {| data := fresh (dom σ); history := fresh (dom σ1) |}]> σ2).
  split; [done|].
  assert (σ1 !! fresh (dom σ) = Some (ODict ∅)) as H1
    by apply lookup_insert_eq.
  assert (σ2 !! fresh (dom σ1) = Some (OList [])) as H2
    by apply lookup_insert_eq.
  pose proof (fresh_not_bound _ _ _ H1) as N1.
  pose proof (fresh_not_bound _ _ _ H2) as N2.
  assert (σ2 !! fresh (dom σ) = Some (ODict ∅)) as H3
    by (subst σ2; by rewrite lookup_insert_ne by congruence).
  pose proof (fresh_not_bound _ _ _ H3) as N3.
  split; cbn [data history].
  - by rewrite lookup_insert_eq.
  - by rewrite lookup_insert_ne by congruence.
  - by rewrite lookup_insert_ne by congruence.
  - constructor.
Qed.

(** Every store obtained from the constructor by calls of the methods is
    well formed. *)
Lemma perform_keeps (σ σ' : heap) (self : loc) (g : game_state)
    (d : gmap string value) (hs : list value) (c : call) :
  gs_at σ self g d hs → perform self c σ = Ok (tt, σ') →
  ∃ g' d' hs', gs_at σ' self g' d' hs'.
Proof.
  intros Hgs Hrun. destruct c as [k v|k default| |index]; cbn in Hrun.
  - rewrite (set_run Hgs) in Hrun. injection Hrun as <-.
    do 3 eexists. apply (set_keeps Hgs).
  - unfold mbind, M_bind in Hrun. rewrite (get_run Hgs) in Hrun.
    injection Hrun as <-. by do 3 eexists.
  - rewrite (save_run Hgs) in Hrun. injection Hrun as <-.
    do 3 eexists. apply (save_keeps Hgs).
  - destruct (decide (hs = [])) as [Hnil|Hne].
    { rewrite (restore_empty_run Hgs index Hnil) in Hrun.
      injection Hrun as <-. by do 3 eexists. }
    destruct (list_index hs index) as [e|] eqn:Hi.
    + destruct (entry_is_snapshot Hgs index e Hi) as (l & m & -> & _ & Hl).
      rewrite (restore_run Hgs index l m Hi Hl) in Hrun.
      injection Hrun as <-. do 3 eexists. apply (restore_keeps Hgs l m Hl).
    + by rewrite (restore_out_of_range_run Hgs index Hne Hi) in Hrun.
Qed.

Lemma perform_all_keeps (cs : list call) :
  ∀ (σ σ' : heap) (self : loc) (g : game_state) (d : gmap string value)
    (hs : list value),
    gs_at σ self g d hs → perform_all self cs σ = Ok (tt, σ') →
    ∃ g' d' hs', gs_at σ' self g' d' hs'.
Proof.
  induction cs as [|c cs IH]; intros σ σ' self g d hs Hgs Hrun.
  - injection Hrun as <-. by do 3 eexists.
  - cbn [perform_all] in Hrun. unfold mbind, M_bind at 1 in Hrun.
    destruct (perform self c σ) as [[[] σ1]| |] eqn:Hc; try done.
    destruct (perform_keeps _ _ _ _ _ _ _ Hgs Hc) as (g1 & d1 & hs1 & Hgs1).
    by eapply IH.
Qed.

Lemma constructed_store_wf (σ0 σ1 σ' : heap) (self : loc) (cs : list call) :
  GameState.__init__ σ0 = Ok (self, σ1) →
  perform_all self cs σ1 = Ok (tt, σ') →
  ∃ g d hs, gs_at σ' self g d hs.
Proof.
  intros Hinit Hrun.
  destruct (init_run σ0) as (self' & g & σ1' & Hinit' & Hgs).
  rewrite Hinit in Hinit'. injection Hinit' as <- <-.
  by eapply perform_all_keeps.
Qed.

Lemma demo_heap_wf :
  gs_at demo_heap 3%positive demo_game demo_data [VRef 4%positive].
Proof.
  split; [reflexivity..|].
  repeat constructor.
  exists 4%positive, (<["score" := VInt 1000]> ∅).
  repeat split; [discriminate].
Qed.

Lemma fresh_heap_wf :
  gs_at fresh_heap 3%positive demo_game (<["score" := VInt 0]> ∅) [].
Proof. split; [reflexivity..|constructor]. Qed.

(** ** The properties of the state store *)

(** C1: for every key [k] and value [v], [set(k, v)] followed by [get(k)]
    returns [v], whatever the current mapping held before; the same holds
    when a default is passed to [get]. *)
Theorem set_then_get (σ : heap) (self : loc) (g : game_state)
    (d : gmap string value) (hs : list value) (k : string) (v : value) :
  gs_at σ self g d hs →
  ∃ σ', GameState.set self k v σ = Ok (tt, σ') ∧
        GameState.get self k GameState.get_default σ' = Ok (v, σ') ∧
        ∀ default, GameState.get self k default σ' = Ok (v, σ').
Proof.
  intros Hgs. eexists. split; [apply (set_run Hgs)|].
  pose proof (set_keeps Hgs k v) as Hgs'.
  assert (∀ default, lookup_default (<[k := v]> d) k default = v) as Hv
    by (intros; unfold lookup_default; by rewrite lookup_insert_eq).
  split; [|intros default]; rewrite (get_run Hgs'); by rewrite Hv.
Qed.

Lemma set_then_get_witness :
  ∃ σ', GameState.set 3%positive "score" (VInt 7) demo_heap = Ok (tt, σ') ∧
        GameState.get 3%positive "score" GameState.get_default σ'
          = Ok (VInt 7, σ') ∧
        ∀ default, GameState.get 3%positive "score" default σ'
          = Ok (VInt 7, σ').
Proof. exact (set_then_get _ _ _ _ _ "score" (VInt 7) demo_heap_wf). Defined.

(** C2: copy on snapshot.  After [save_checkpoint()], the newest history
    entry holds the bindings the current mapping had at that moment, and any
    sequence of [set] calls made afterwards leaves the history, and the
    top-level bindings of each of its entries, as they were. *)
Theorem snapshots_survive_set (σ : heap) (self : loc) (g : game_state)
    (d : gmap string value) (hs : list value)
    (kvs : list (string * value)) :
  gs_at σ self g d hs →
  ∃ σ1 σ2,
    GameState.save_checkpoint self σ = Ok (tt, σ1) ∧
    history_view σ1 self = Some ((snapshot σ <$> hs) ++ [Some d]) ∧
    Forall is_Some (snapshot σ <$> hs) ∧
    set_many self kvs σ1 = Ok (tt, σ2) ∧
    current σ2 self = Some (assign_all d kvs) ∧
    entries σ2 self = entries σ1 self ∧
    history_view σ2 self = history_view σ1 self.
Proof.
  intros Hgs.
  pose proof (save_keeps Hgs) as Hgs1.
  destruct (set_many_run kvs _ _ _ _ _ Hgs1) as [Hrun Hgs2].
  do 2 eexists. split; [apply (save_run Hgs)|].
  assert (snapshot
            (<[history g := OList (hs ++ [VRef (fresh (dom σ))])]>
               (<[fresh (dom σ) := ODict d]> σ))
            <$> (hs ++ [VRef (fresh (dom σ))])
          = (snapshot σ <$> hs) ++ [Some d]) as Hview.
  { rewrite fmap_app, (snapshots_frame Hgs _ (save_frame Hgs)).
    f_equal. cbn. unfold dict_at.
    rewrite lookup_insert_ne, lookup_insert_eq; [done|].
    eapply fresh_not_bound, Hgs. }
  split; [by rewrite (history_view_bound Hgs1), Hview|].
  split; [apply (snapshots_bound Hgs)|].
  split; [exact Hrun|].
  split; [apply (current_bound Hgs2)|].
  split; [by rewrite (entries_bound Hgs2), (entries_bound Hgs1)|].
  rewrite (history_view_bound Hgs2), (history_view_bound Hgs1).
  f_equal. apply (snapshots_frame Hgs1), (set_frame (g := g)).
Qed.

Lemma snapshots_survive_set_witness :
  ∃ σ1 σ2,
    GameState.save_checkpoint 3%positive demo_heap = Ok (tt, σ1) ∧
    history_view σ1 3%positive
      = Some ((snapshot demo_heap <$> [VRef 4%positive]) ++ [Some demo_data]) ∧
    Forall is_Some (snapshot demo_heap <$> [VRef 4%positive]) ∧
    set_many 3%positive [("score", VInt 1); ("lives", VInt 3)] σ1
      = Ok (tt, σ2) ∧
    current σ2 3%positive
      = Some (assign_all demo_data [("score", VInt 1); ("lives", VInt 3)]) ∧
    entries σ2 3%positive = entries σ1 3%positive ∧
    history_view σ2 3%positive = history_view σ1 3%positive.
Proof.
  exact (snapshots_survive_set _ _ _ _ _
           [("score", VInt 1); ("lives", VInt 3)] demo_heap_wf).
Defined.

Lemma restore_at (σ : heap) (self : loc) (g : game_state)
    (d : gmap string value) (hs : list value) (index : Z) (e : value) :
  gs_at σ self g d hs →
  list_index hs index = Some e →
  ∃ m σ', snapshot σ e = Some m ∧
    GameState.restore_checkpoint self index σ = Ok (tt, σ') ∧
    gs_at σ' self {| data := fresh (dom σ); history := history g |} m hs ∧
    dict_frame g σ σ'.
Proof.
  intros Hgs Hi.
  destruct (entry_is_snapshot Hgs index e Hi) as (l & m & -> & Hne & Hl).
  exists m. eexists. split; [unfold snapshot, dict_at; by rewrite Hl|].
  split; [apply (restore_run Hgs index l m Hi Hl)|].
  split; [apply (restore_keeps Hgs l m Hl)|apply (restore_frame Hgs)].
Qed.

(** C3: on a non-empty history, [restore_checkpoint()] makes the current
    mapping the bindings of the most recently saved snapshot, so every later
    [get(k)] answers from that snapshot; a negative index [-i] selects the
    [i]-th entry from the end; and the sequence
    [set("score", 1000); save_checkpoint(); set("score", 2000);
     restore_checkpoint(); get("score")] on a new store returns [1000]. *)
Theorem restore_latest (σ : heap) (self : loc) (g : game_state)
    (d : gmap string value) (hs : list value) :
  gs_at σ self g d hs → hs ≠ [] →
  (∃ e m σ',
     last hs = Some e ∧ snapshot σ e = Some m ∧
     GameState.restore_checkpoint self
       GameState.restore_checkpoint_default σ = Ok (tt, σ') ∧
     current σ' self = Some m ∧
     ∀ k default,
       GameState.get self k default σ' = Ok (lookup_default m k default, σ')) ∧
  (∀ i : nat, 1 ≤ i ≤ length hs →
     ∃ e m σ',
       hs !! (length hs - i) = Some e ∧ snapshot σ e = Some m ∧
       GameState.restore_checkpoint self (- Z.of_nat i) σ = Ok (tt, σ') ∧
       current σ' self = Some m ∧
       ∀ k default,
         GameState.get self k default σ'
           = Ok (lookup_default m k default, σ')) ∧
  fst_result (run example_score) = Ok (VInt 1000).
Proof.
  intros Hgs Hne.
  assert (∀ i : nat, 1 ≤ i ≤ length hs →
     ∃ e m σ',
       hs !! (length hs - i) = Some e ∧ snapshot σ e = Some m ∧
       GameState.restore_checkpoint self (- Z.of_nat i) σ = Ok (tt, σ') ∧
       current σ' self = Some m ∧
       ∀ k default,
         GameState.get self k default σ'
           = Ok (lookup_default m k default, σ')) as Hneg.
  { intros i Hi.
    destruct (lookup_lt_is_Some_2 hs (length hs - i)) as [e He]; [lia|].
    assert (list_index hs (- Z.of_nat i) = Some e) as Hidx
      by (by rewrite list_index_from_end).
    destruct (restore_at _ _ _ _ _ _ _ Hgs Hidx) as (m & σ' & Hm & Hrun & Hgs' & _).
    exists e, m, σ'. repeat split; try done.
    - apply (current_bound Hgs').
    - intros k default. apply (get_run Hgs'). }
  split; [|split; [exact Hneg|by vm_compute]].
  assert (1 ≤ length hs) as Hlen by (destruct hs; [done|simpl; lia]).
  destruct (Hneg 1 (conj (le_n 1) Hlen)) as (e & m & σ' & He & Hm & Hrun & Hcur & Hget).
  exists e, m, σ'. repeat split; try done.
  rewrite last_lookup, <- He. f_equal. lia.
Qed.

Lemma restore_latest_witness :
  (∃ e m σ',
     last [VRef 4%positive] = Some e ∧ snapshot demo_heap e = Some m ∧
     GameState.restore_checkpoint 3%positive
       GameState.restore_checkpoint_default demo_heap = Ok (tt, σ') ∧
     current σ' 3%positive = Some m ∧
     ∀ k default,
       GameState.get 3%positive k default σ'
         = Ok (lookup_default m k default, σ')) ∧
  (∀ i : nat, 1 ≤ i ≤ length [VRef 4%positive] →
     ∃ e m σ',
       [VRef 4%positive] !! (length [VRef 4%positive] - i) = Some e ∧
       snapshot demo_heap e = Some m ∧
       GameState.restore_checkpoint 3%positive (- Z.of_nat i) demo_heap
         = Ok (tt, σ') ∧
       current σ' 3%positive = Some m ∧
       ∀ k default,
         GameState.get 3%positive k default σ'
           = Ok (lookup_default m k default, σ')) ∧
  fst_result (run example_score) = Ok (VInt 1000).
Proof.
  apply (restore_latest _ _ _ _ _ demo_heap_wf). discriminate.
Defined.

(** C4: when no checkpoint has been saved, [restore_checkpoint(index)]
    returns normally for every index and leaves the store, and so the
    current mapping, as it was. *)
Theorem restore_without_checkpoint (σ : heap) (self : loc) (g : game_state)
    (d : gmap string value) (index : Z) :
  gs_at σ self g d [] →
  GameState.restore_checkpoint self index σ = Ok (tt, σ) ∧
  current σ self = Some d.
Proof.
  intros Hgs. split.
  - by apply (restore_empty_run Hgs).
  - apply (current_bound Hgs).
Qed.

Lemma restore_without_checkpoint_witness :
  GameState.restore_checkpoint 3%positive 7 fresh_heap = Ok (tt, fresh_heap) ∧
  current fresh_heap 3%positive = Some (<["score" := VInt 0]> ∅).
Proof. exact (restore_without_checkpoint _ _ _ _ 7 fresh_heap_wf). Defined.

(** C5, as amended: [set], [get] and [save_checkpoint] return normally on
    every store; [restore_checkpoint(index)] returns normally when the
    history is empty or [-len <= index < len], and raises [IndexError] on a
    non-empty history for every other index. *)
Theorem store_operations_total (σ : heap) (self : loc) (g : game_state)
    (d : gmap string value) (hs : list value) :
  gs_at σ self g d hs →
  (∀ k v, ∃ σ', GameState.set self k v σ = Ok (tt, σ')) ∧
  (∀ k default, ∃ v, GameState.get self k default σ = Ok (v, σ)) ∧
  (∃ σ', GameState.save_checkpoint self σ = Ok (tt, σ')) ∧
  (∀ index : Z,
     hs = [] ∨ (- Z.of_nat (length hs) ≤ index < Z.of_nat (length hs))%Z →
     ∃ σ', GameState.restore_checkpoint self index σ = Ok (tt, σ')) ∧
  (∀ index : Z,
     hs ≠ [] →
     (index < - Z.of_nat (length hs) ∨ Z.of_nat (length hs) ≤ index)%Z →
     GameState.restore_checkpoint self index σ = Raise IndexError).
Proof.
  intros Hgs. repeat split.
  - intros k v. eexists. apply (set_run Hgs).
  - intros k default. eexists. apply (get_run Hgs).
  - eexists. apply (save_run Hgs).
  - intros index [Hnil | Hr].
    + eexists. by apply (restore_empty_run Hgs).
    + destruct (list_index_in_range hs index Hr) as [e He].
      destruct (restore_at _ _ _ _ _ _ _ Hgs He) as (m & σ' & _ & Hrun & _).
      by exists σ'.
  - intros index Hne Hr.
    apply (restore_out_of_range_run Hgs); [done|].
    by apply list_index_out_of_range.
Qed.

Lemma store_operations_total_witness :
  (∀ k v, ∃ σ', GameState.set 3%positive k v demo_heap = Ok (tt, σ')) ∧
  (∀ k default, ∃ v,
     GameState.get 3%positive k default demo_heap = Ok (v, demo_heap)) ∧
  (∃ σ', GameState.save_checkpoint 3%positive demo_heap = Ok (tt, σ')) ∧
  (∀ index : Z,
     [VRef 4%positive] = [] ∨
     (- Z.of_nat (length [VRef 4%positive]) ≤ index
        < Z.of_nat (length [VRef 4%positive]))%Z →
     ∃ σ', GameState.restore_checkpoint 3%positive index demo_heap
             = Ok (tt, σ')) ∧
  (∀ index : Z,
     [VRef 4%positive] ≠ [] →
     (index < - Z.of_nat (length [VRef 4%positive]) ∨
      Z.of_nat (length [VRef 4%positive]) ≤ index)%Z →
     GameState.restore_checkpoint 3%positive index demo_heap
       = Raise IndexError).
Proof. exact (store_operations_total _ _ _ _ _ demo_heap_wf). Defined.

(** C5 as stated fails: on a new store with one checkpoint,
    [restore_checkpoint(1)] raises [IndexError], so [restore_checkpoint] is
    not total over the integer indices. *)
Lemma restore_out_of_range_raises :
  fst_result (run (self ← GameState.__init__;
                   GameState.save_checkpoint self;;
                   GameState.restore_checkpoint self 1)) = Raise IndexError ∧
  ¬ (∀ (σ : heap) (self : loc) (g : game_state) (d : gmap string value)
       (hs : list value) (index : Z),
       gs_at σ self g d hs →
       ∃ σ', GameState.restore_checkpoint self index σ = Ok (tt, σ')).
Proof.
  split; [by vm_compute|].
  intros Htotal.
  destruct (Htotal _ _ _ _ _ 1%Z demo_heap_wf) as [σ' Hrun].
  by vm_compute in Hrun.
Qed.

(** C6: for a key [k] that the current mapping does not bind, [get(k, d)]
    returns [d], and [get(k)] returns [None]; in both cases the store, and
    with it the current mapping and the history, is returned as it was. *)
Theorem get_unset_key (σ : heap) (self : loc) (g : game_state)
    (d : gmap string value) (hs : list value) (k : string)
    (default : value) :
  gs_at σ self g d hs → d !! k = None →
  GameState.get self k default σ = Ok (default, σ) ∧
  GameState.get self k GameState.get_default σ = Ok (VNone, σ).
Proof.
  intros Hgs Hk. rewrite !(get_run Hgs). unfold lookup_default.
  by rewrite Hk.
Qed.

Lemma get_unset_key_witness :
  GameState.get 3%positive "lives" (VInt 3) demo_heap
    = Ok (VInt 3, demo_heap) ∧
  GameState.get 3%positive "lives" GameState.get_default demo_heap
    = Ok (VNone, demo_heap).
Proof.
  apply (get_unset_key _ _ _ _ _ "lives" (VInt 3) demo_heap_wf).
  reflexivity.
Defined.

(** C7: [save_checkpoint] copies only the top level.  When the current
    mapping binds [k] to a reference to a nested object, the new history
    entry is a dict of its own that binds [k] to the same reference, and
    appending to a nested list through the current mapping changes the list
    the snapshot refers to. *)
Theorem save_checkpoint_shares_nested (σ : heap) (self : loc)
    (g : game_state) (d : gmap string value) (hs : list value)
    (k : string) (l : loc) (o : object) :
  gs_at σ self g d hs → d !! k = Some (VRef l) → σ !! l = Some o →
  ∃ σ1 c,
    GameState.save_checkpoint self σ = Ok (tt, σ1) ∧
    entries σ1 self = Some (hs ++ [VRef c]) ∧
    c ≠ data g ∧ c ≠ l ∧
    snapshot σ1 (VRef c) = Some d ∧
    current σ1 self = Some d ∧
    ∀ xs v, list_at σ1 l = Some xs →
      ∃ σ2, append_through self k v σ1 = Ok (tt, σ2) ∧
            snapshot σ2 (VRef c) = Some d ∧
            list_at σ2 l = Some (xs ++ [v]).
Proof.
  intros Hgs Hk Hl.
  pose proof (save_keeps Hgs) as Hgs1.
  assert (data g ≠ fresh (dom σ)) as Hcd by (eapply fresh_not_bound, Hgs).
  assert (history g ≠ fresh (dom σ)) as Hch by (eapply fresh_not_bound, Hgs).
  pose proof (fresh_not_bound _ _ _ Hl) as Hcl.
  set (σ1 := <[history g := OList (hs ++ [VRef (fresh (dom σ))])]>
               (<[fresh (dom σ) := ODict d]> σ)) in *.
  assert (snapshot σ1 (VRef (fresh (dom σ))) = Some d) as Hsnap.
  { unfold snapshot, dict_at, σ1.
    by rewrite lookup_insert_ne, lookup_insert_eq by congruence. }
  exists σ1, (fresh (dom σ)).
  split; [apply (save_run Hgs)|].
  split; [apply (entries_bound Hgs1)|].
  do 2 (split; [congruence|]).
  split; [exact Hsnap|].
  split; [apply (current_bound Hgs1)|].
  intros xs v Hxs. unfold list_at in Hxs.
  destruct (σ1 !! l) as [[| xs' |]|] eqn:Hl1; try done.
  injection Hxs as ->.
  exists (<[l := OList (xs ++ [v])]> σ1). split.
  - unfold append_through, mbind, M_bind at 1.
    rewrite (get_run Hgs1). unfold lookup_default, GameState.get_default.
    rewrite Hk. unfold_m. by step_m.
  - unfold snapshot, dict_at, list_at in *.
    rewrite lookup_insert_ne by congruence.
    by rewrite lookup_insert_eq.
Qed.

Lemma save_checkpoint_shares_nested_witness :
  ∃ σ1 c,
    GameState.save_checkpoint 3%positive demo_heap = Ok (tt, σ1) ∧
    entries σ1 3%positive = Some ([VRef 4%positive] ++ [VRef c]) ∧
    c ≠ data demo_game ∧ c ≠ 5%positive ∧
    snapshot σ1 (VRef c) = Some demo_data ∧
    current σ1 3%positive = Some demo_data ∧
    ∀ xs v, list_at σ1 5%positive = Some xs →
      ∃ σ2, append_through 3%positive "items" v σ1 = Ok (tt, σ2) ∧
            snapshot σ2 (VRef c) = Some demo_data ∧
            list_at σ2 5%positive = Some (xs ++ [v]).
Proof.
  apply (save_checkpoint_shares_nested _ _ _ _ _ "items" 5%positive
           (OList [VStr "sword"]) demo_heap_wf); reflexivity.
Defined.

(** C8: [save_checkpoint()] immediately followed by [restore_checkpoint()]
    returns normally and leaves the current mapping with the keys and
    top-level values it had before. *)
Theorem save_restore_roundtrip (σ : heap) (self : loc) (g : game_state)
    (d : gmap string value) (hs : list value) :
  gs_at σ self g d hs →
  ∃ σ',
    (GameState.save_checkpoint self;;
     GameState.restore_checkpoint self
       GameState.restore_checkpoint_default) σ = Ok (tt, σ') ∧
    current σ' self = current σ self ∧
    current σ self = Some d.
Proof.
  intros Hgs.
  pose proof (save_keeps Hgs) as Hgs1.
  assert (list_index (hs ++ [VRef (fresh (dom σ))]) (-1)
          = Some (VRef (fresh (dom σ)))) as Hidx.
  { rewrite list_index_last by (by destruct hs). apply last_snoc. }
  destruct (restore_at _ _ _ _ _ _ _ Hgs1 Hidx)
    as (m & σ' & Hm & Hrun & Hgs' & _).
  assert (m = d) as ->.
  { unfold snapshot, dict_at in Hm.
    rewrite lookup_insert_ne, lookup_insert_eq in Hm; [congruence|].
    eapply fresh_not_bound, Hgs. }
  exists σ'. split.
  - unfold mbind, M_bind at 1. by rewrite (save_run Hgs).
  - by rewrite (current_bound Hgs'), (current_bound Hgs).
Qed.

Lemma save_restore_roundtrip_witness :
  ∃ σ',
    (GameState.save_checkpoint 3%positive;;
     GameState.restore_checkpoint 3%positive
       GameState.restore_checkpoint_default) demo_heap = Ok (tt, σ') ∧
    current σ' 3%positive = current demo_heap 3%positive ∧
    current demo_heap 3%positive = Some demo_data.
Proof. exact (save_restore_roundtrip _ _ _ _ _ demo_heap_wf). Defined.

(** C9: the history is only ever appended to, and only by
    [save_checkpoint].  [set] and [get] leave the history entries and their
    top-level bindings as they were; [save_checkpoint] adds exactly one entry
    at the end, holding the current bindings, and leaves the earlier ones as
    they were; [restore_checkpoint] with an index in range leaves the whole
    history, the restored entry included, as it was. *)
Theorem history_append_only (σ : heap) (self : loc) (g : game_state)
    (d : gmap string value) (hs : list value) :
  gs_at σ self g d hs →
  entries σ self = Some hs ∧
  history_view σ self = Some (snapshot σ <$> hs) ∧
  (∀ k v, ∃ σ',
     GameState.set self k v σ = Ok (tt, σ') ∧
     entries σ' self = Some hs ∧
     history_view σ' self = history_view σ self) ∧
  (∀ k default, ∃ v, GameState.get self k default σ = Ok (v, σ)) ∧
  (∃ σ' c,
     GameState.save_checkpoint self σ = Ok (tt, σ') ∧
     entries σ' self = Some (hs ++ [VRef c]) ∧
     history_view σ' self = Some ((snapshot σ <$> hs) ++ [Some d])) ∧
  (∀ index : Z,
     (- Z.of_nat (length hs) ≤ index < Z.of_nat (length hs))%Z →
     ∃ σ',
       GameState.restore_checkpoint self index σ = Ok (tt, σ') ∧
       entries σ' self = Some hs ∧
       history_view σ' self = history_view σ self).
Proof.
  intros Hgs.
  split; [apply (entries_bound Hgs)|].
  split; [apply (history_view_bound Hgs)|].
  rewrite (history_view_bound Hgs).
  split; [|split; [|split]].
  - intros k v. eexists. split; [apply (set_run Hgs)|].
    pose proof (set_keeps Hgs k v) as Hgs'.
    split; [apply (entries_bound Hgs')|].
    rewrite (history_view_bound Hgs'). f_equal.
    apply (snapshots_frame Hgs), (set_frame (g := g)).
  - intros k default. eexists. apply (get_run Hgs).
  - do 2 eexists. split; [apply (save_run Hgs)|].
    pose proof (save_keeps Hgs) as Hgs'.
    split; [apply (entries_bound Hgs')|].
    rewrite (history_view_bound Hgs'), fmap_app.
    rewrite (snapshots_frame Hgs _ (save_frame Hgs)).
    do 2 f_equal. cbn. unfold dict_at.
    rewrite lookup_insert_ne, lookup_insert_eq; [done|].
    eapply fresh_not_bound, Hgs.
  - intros index Hr.
    destruct (list_index_in_range hs index Hr) as [e He].
    destruct (restore_at _ _ _ _ _ _ _ Hgs He)
      as (m & σ' & _ & Hrun & Hgs' & Hframe).
    exists σ'. split; [exact Hrun|].
    split; [apply (entries_bound Hgs')|].
    rewrite (history_view_bound Hgs'). f_equal.
    by apply (snapshots_frame Hgs).
Qed.

Lemma history_append_only_witness :
  entries demo_heap 3%positive = Some [VRef 4%positive] ∧
  history_view demo_heap 3%positive
    = Some (snapshot demo_heap <$> [VRef 4%positive]) ∧
  (∀ k v, ∃ σ',
     GameState.set 3%positive k v demo_heap = Ok (tt, σ') ∧
     entries σ' 3%positive = Some [VRef 4%positive] ∧
     history_view σ' 3%positive = history_view demo_heap 3%positive) ∧
  (∀ k default, ∃ v,
     GameState.get 3%positive k default demo_heap = Ok (v, demo_heap)) ∧
  (∃ σ' c,
     GameState.save_checkpoint 3%positive demo_heap = Ok (tt, σ') ∧
     entries σ' 3%positive = Some ([VRef 4%positive] ++ [VRef c]) ∧
     history_view σ' 3%positive
       = Some ((snapshot demo_heap <$> [VRef 4%positive])
                 ++ [Some demo_data])) ∧
  (∀ index : Z,
     (- Z.of_nat (length [VRef 4%positive]) ≤ index
        < Z.of_nat (length [VRef 4%positive]))%Z →
     ∃ σ',
       GameState.restore_checkpoint 3%positive index demo_heap
         = Ok (tt, σ') ∧
       entries σ' 3%positive = Some [VRef 4%positive] ∧
       history_view σ' 3%positive = history_view demo_heap 3%positive).
Proof. exact (history_append_only _ _ _ _ _ demo_heap_wf). Defined.

(** ** The property of the number prompt *)

Section prompt.
Import InputHandler.
Variable int : string → option Z.

Lemma range_checks (min_val max_val : option Z) (value : Z) :
  below min_val value = false → above max_val value = false →
  in_range min_val max_val value.
Proof.
  intros Hlo Hhi. split; intros m ->; cbn in *; lia.
Qed.

Lemma below_rejected (min_val max_val : option Z) (value : Z) :
  below min_val value = true → ¬ in_range min_val max_val value.
Proof.
  destruct min_val as [m|]; [|done]. cbn. intros Hlo [Hmin _].
  specialize (Hmin m eq_refl). lia.
Qed.

Lemma above_rejected (min_val max_val : option Z) (value : Z) :
  above max_val value = true → ¬ in_range min_val max_val value.
Proof.
  destruct max_val as [m|]; [|done]. cbn. intros Hhi [_ Hmax].
  specialize (Hmax m eq_refl). lia.
Qed.

Lemma get_number_loop_returns (prompt : string) (min_val max_val : option Z)
    (lines : list string) :
  ∀ (out : list string) (value : Z) (c : console),
    get_number_loop int prompt min_val max_val lines out = Ok (value, c) →
    ∃ skipped line,
      lines = skipped ++ line :: stdin c ∧
      int line = Some value ∧
      in_range min_val max_val value ∧
      Forall (rejected int min_val max_val) skipped.
Proof.
  induction lines as [|line rest IH]; intros out value c Hrun; [done|].
  cbn [get_number_loop] in Hrun.
  assert (∀ out',
    get_number_loop int prompt min_val max_val rest out' = Ok (value, c) →
    rejected int min_val max_val line →
    ∃ skipped line0,
      line :: rest = skipped ++ line0 :: stdin c ∧
      int line0 = Some value ∧
      in_range min_val max_val value ∧
      Forall (rejected int min_val max_val) skipped) as Hskip.
  { intros out' Hrest Hrej.
    destruct (IH _ _ _ Hrest) as (skipped & line0 & -> & Hint & Hin & Hall).
    exists (line :: skipped), line0. repeat split; try done; try apply Hin.
    by constructor. }
  destruct (int line) as [z|] eqn:Hparse.
  - destruct (below min_val z) eqn:Hlo.
    { eapply Hskip; [exact Hrun|]. intros z' Hz'.
      assert (z' = z) as -> by congruence. by apply below_rejected. }
    destruct (above max_val z) eqn:Hhi.
    { eapply Hskip; [exact Hrun|]. intros z' Hz'.
      assert (z' = z) as -> by congruence. by apply above_rejected. }
    injection Hrun as <- <-.
    exists [], line. split; [done|]. split; [done|].
    split; [by apply range_checks|constructor].
  - eapply Hskip; [exact Hrun|]. intros z' Hz'. congruence.
Qed.

(** The loop returns as soon as a line parses to an integer within the
    bounds, and raises [EOFError] when the input has no such line. *)
Lemma get_number_loop_total (prompt : string) (min_val max_val : option Z)
    (lines : list string) :
  ∀ out : list string,
    (∃ value c,
       get_number_loop int prompt min_val max_val lines out
         = Ok (value, c)) ∨
    (get_number_loop int prompt min_val max_val lines out = Raise EOFError ∧
     Forall (rejected int min_val max_val) lines).
Proof.
  induction lines as [|line rest IH]; intros out; [by right|].
  cbn [get_number_loop].
  assert (∀ out',
    rejected int min_val max_val line →
    (∃ value c,
       get_number_loop int prompt min_val max_val rest out'
         = Ok (value, c)) ∨
    (get_number_loop int prompt min_val max_val rest out' = Raise EOFError ∧
     Forall (rejected int min_val max_val) (line :: rest))) as Hskip.
  { intros out' Hrej. destruct (IH out') as [?|[? ?]]; [by left|right].
    split; [done|by constructor]. }
  destruct (int line) as [z|] eqn:Hparse.
  - destruct (below min_val z) eqn:Hlo.
    { apply Hskip. intros z' Hz'.
      assert (z' = z) as -> by congruence. by apply below_rejected. }
    destruct (above max_val z) eqn:Hhi.
    { apply Hskip. intros z' Hz'.
      assert (z' = z) as -> by congruence. by apply above_rejected. }
    left. by do 2 eexists.
  - apply Hskip. intros z' Hz'. congruence.
Qed.

End prompt.

(** C10: whenever [get_number(prompt, min_val, max_val)] returns on a
    finite input, the returned integer is the value of a line that was read,
    it is at least [min_val] and at most [max_val] where these are given, and
    every line read before it failed to parse or violated a bound; the lines
    up to and including the returned one are consumed. *)
Theorem get_number_in_range (int : string → option Z) (prompt : string)
    (min_val max_val : option Z) (c c' : console) (value : Z) :
  InputHandler.get_number int prompt min_val max_val c = Ok (value, c') →
  (∀ m, min_val = Some m → (m ≤ value)%Z) ∧
  (∀ m, max_val = Some m → (value ≤ m)%Z) ∧
  ∃ skipped line,
    stdin c = skipped ++ line :: stdin c' ∧
    int line = Some value ∧
    Forall (InputHandler.rejected int min_val max_val) skipped.
Proof.
  unfold InputHandler.get_number. intros Hrun.
  destruct (get_number_loop_returns int _ _ _ _ _ _ _ Hrun)
    as (skipped & line & Hlines & Hint & [Hmin Hmax] & Hall).
  split; [exact Hmin|]. split; [exact Hmax|].
  by exists skipped, line.
Qed.

Lemma get_number_in_range_witness :
  (∀ m, Some 1%Z = Some m → (m ≤ 7)%Z) ∧
  (∀ m, Some 10%Z = Some m → (7 ≤ m)%Z) ∧
  ∃ skipped line,
    ["abc"; "15"; "0"; "7"; "3"] = skipped ++ line :: ["3"] ∧
    py_int line = Some 7%Z ∧
    Forall (InputHandler.rejected py_int (Some 1%Z) (Some 10%Z)) skipped.
Proof.
  apply (get_number_in_range py_int "> " (Some 1%Z) (Some 10%Z)
           {| stdin := ["abc"; "15"; "0"; "7"; "3"]; stdout := [] |}
           {| stdin := ["3"];
              stdout := ["> "; "Please enter a valid number."; "> ";
                         "Value must be at most 10"; "> ";
                         "Value must be at least 1"; "> "] |}
           7%Z).
  vm_compute. reflexivity.
Defined.

(** ** Further properties of the input prompts *)

Section prompt_traces.
Import InputHandler.
Variable int : string → option Z.

Lemma rejections_cons (prompt : string) (reply : string → string)
    (line : string) (skipped : list string) :
  rejections prompt reply (line :: skipped)
  = prompt :: reply line :: rejections prompt reply skipped.
Proof. done. Qed.


End prompt_traces.

Section choice.
Import InputHandler.
Variable lower : string → string.

Lemma get_choice_loop_returns (prompt : string) (choices : list string)
    (case_sensitive : bool) (lines : list string) :
  ∀ (out : list string) (r : string) (c : console),
    get_choice_loop lower prompt choices case_sensitive lines out
      = Ok (r, c) →
    ∃ skipped line,
      lines = skipped ++ line :: stdin c ∧
      r = fold_case lower case_sensitive line ∧
      r ∈ choices ∧
      Forall (λ s, fold_case lower case_sensitive s ∉ choices) skipped ∧
      stdout c = out ++ rejections prompt
                          (λ _, "Invalid choice. Please choose from: " +:+
                                  String.concat ", " choices) skipped
                     ++ [prompt].
Proof.
  induction lines as [|line rest IH]; intros out r c Hrun; [done|].
  cbn [get_choice_loop] in Hrun. case_bool_decide as Hin.
  - injection Hrun as <- <-. exists [], line.
    split; [done|]. split; [done|]. split; [done|]. by split.
  - destruct (IH _ _ _ Hrun)
      as (skipped & line0 & -> & Hr & Hrin & Hall & Hout).
    exists (line :: skipped), line0.
    split; [done|]. split; [done|]. split; [done|].
    split; [by constructor|].
    rewrite Hout, rejections_cons. by rewrite <- !app_assoc.
Qed.

Lemma get_choice_loop_total (prompt : string) (choices : list string)
    (case_sensitive : bool) (lines : list string) :
  ∀ out : list string,
    (∃ r c, get_choice_loop lower prompt choices case_sensitive lines out
              = Ok (r, c)) ∨
    (get_choice_loop lower prompt choices case_sensitive lines out
       = Raise EOFError ∧
     Forall (λ s, fold_case lower case_sensitive s ∉ choices) lines).
Proof.
  induction lines as [|line rest IH]; intros out; [by right|].
  cbn [get_choice_loop]. case_bool_decide as Hin.
  - left. by do 2 eexists.
  - destruct (IH ((out ++ [prompt]) ++
               ["Invalid choice. Please choose from: " +:+
                  String.concat ", " choices])) as [?|[? ?]]; [by left|right].
    split; [done|by constructor].
Qed.

End choice.

(** X1: on a finite input, [get_number] returns exactly when some line
    parses to an integer within the bounds, and raises [EOFError] exactly
    when every line fails to parse or violates a bound. *)
Theorem get_number_returns_iff (int : string → option Z) (prompt : string)
    (min_val max_val : option Z) (c : console) :
  ((∃ value c',
      InputHandler.get_number int prompt min_val max_val c = Ok (value, c')) ↔
   Exists (λ line, ∃ z, int line = Some z ∧
                        InputHandler.in_range min_val max_val z) (stdin c)) ∧
  (InputHandler.get_number int prompt min_val max_val c = Raise EOFError ↔
   Forall (InputHandler.rejected int min_val max_val) (stdin c)).
Proof.
  unfold InputHandler.get_number.
  assert (∀ value c',
    InputHandler.get_number_loop int prompt min_val max_val (stdin c)
      (stdout c) = Ok (value, c') →
    Exists (λ line, ∃ z, int line = Some z ∧
                         InputHandler.in_range min_val max_val z) (stdin c))
    as Hret.
  { intros value c' Hrun.
    destruct (get_number_loop_returns int _ _ _ _ _ _ _ Hrun)
      as (skipped & line & -> & Hint & Hin & _).
    apply Exists_app. right. constructor. by exists value. }
  assert (Exists (λ line, ∃ z, int line = Some z ∧
                          InputHandler.in_range min_val max_val z) (stdin c) →
          Forall (InputHandler.rejected int min_val max_val) (stdin c) →
          False) as Hexcl.
  { intros Hex Hall. apply Exists_exists in Hex as (line & Hl & z & Hz & Hin).
    rewrite Forall_forall in Hall. by apply (Hall line Hl z Hz). }
  destruct (get_number_loop_total int prompt min_val max_val (stdin c)
              (stdout c)) as [(value & c' & Hrun)|[Hrun Hall]].
  - pose proof (Hret _ _ Hrun) as Hex. split; split.
    + done.
    + intros _. by exists value, c'.
    + intros Heof. by rewrite Heof in Hrun.
    + intros Hall. destruct (Hexcl Hex Hall).
  - split; split.
    + intros (value & c' & Hrun'). by rewrite Hrun' in Hrun.
    + intros Hex. destruct (Hexcl Hex Hall).
    + done.
    + done.
Qed.

(** X2: when [min_val] is greater than [max_val] no integer passes both
    checks, so [get_number] never returns: on every finite input it reads
    all the lines and ends in [EOFError]. *)
Theorem get_number_empty_range (int : string → option Z) (prompt : string)
    (lo hi : Z) (c : console) :
  (hi < lo)%Z →
  InputHandler.get_number int prompt (Some lo) (Some hi) c = Raise EOFError.
Proof.
  intros Hempty. unfold InputHandler.get_number.
  destruct (get_number_loop_total int prompt (Some lo) (Some hi) (stdin c)
              (stdout c)) as [(value & c' & Hrun)|[Hrun _]]; [|done].
  destruct (get_number_loop_returns int _ _ _ _ _ _ _ Hrun)
    as (_ & _ & _ & _ & [Hmin Hmax] & _).
  specialize (Hmin lo eq_refl). specialize (Hmax hi eq_refl). lia.
Qed.

Lemma get_number_empty_range_witness :
  InputHandler.get_number py_int "> " (Some 5%Z) (Some 1%Z)
    {| stdin := ["3"; "5"; "x"; "1"]; stdout := [] |} = Raise EOFError.
Proof. apply get_number_empty_range. lia. Defined.





(** X5: on a finite input, [get_choice] returns exactly when some line,
    folded, is among the folded choices, and raises [EOFError] exactly when
    none is; with an empty list of choices it never returns. *)
Theorem get_choice_returns_iff (lower : string → string) (prompt : string)
    (choices : list string) (case_sensitive : bool) (c : console) :
  let folded := if case_sensitive then choices else lower <$> choices in
  ((∃ r c',
      InputHandler.get_choice lower prompt choices case_sensitive c
        = Ok (r, c')) ↔
   Exists (λ s, InputHandler.fold_case lower case_sensitive s ∈ folded)
     (stdin c)) ∧
  (InputHandler.get_choice lower prompt choices case_sensitive c
     = Raise EOFError ↔
   Forall (λ s, InputHandler.fold_case lower case_sensitive s ∉ folded)
     (stdin c)) ∧
  (choices = [] →
   InputHandler.get_choice lower prompt choices case_sensitive c
     = Raise EOFError).
Proof.
  intros folded. unfold InputHandler.get_choice. fold folded.
  assert (∀ r c',
    InputHandler.get_choice_loop lower prompt folded case_sensitive
      (stdin c) (stdout c) = Ok (r, c') →
    Exists (λ s, InputHandler.fold_case lower case_sensitive s ∈ folded)
      (stdin c)) as Hret.
  { intros r c' Hrun.
    destruct (get_choice_loop_returns lower _ _ _ _ _ _ _ Hrun)
      as (skipped & line & -> & -> & Hin & _).
    apply Exists_app. right. by constructor. }
  assert (Exists (λ s, InputHandler.fold_case lower case_sensitive s ∈ folded)
            (stdin c) →
          Forall (λ s, InputHandler.fold_case lower case_sensitive s ∉ folded)
            (stdin c) → False) as Hexcl.
  { intros Hex Hall. apply Exists_exists in Hex as (line & Hl & Hin).
    rewrite Forall_forall in Hall. by apply (Hall line Hl). }
  destruct (get_choice_loop_total lower prompt folded case_sensitive
              (stdin c) (stdout c)) as [(r & c' & Hrun)|[Hrun Hall]].
  - pose proof (Hret _ _ Hrun) as Hex. split; [split|split; [split|]].
    + done.
    + intros _. by exists r, c'.
    + intros Heof. by rewrite Heof in Hrun.
    + intros Hall. destruct (Hexcl Hex Hall).
    + intros Hnil. exfalso.
      apply Exists_exists in Hex as (line & _ & Hin).
      subst folded. rewrite Hnil in Hin. destruct case_sensitive; inversion Hin.
  - split; [split|split; [split|]]; try done.
    + intros (r & c' & Hrun'). by rewrite Hrun' in Hrun.
    + intros Hex. destruct (Hexcl Hex Hall).
Qed.

(** X6: [get_yes_no] answers [True] only for a first valid line that
    lowercases to "y" or "yes", and [False] only for one that lowercases to
    "n" or "no"; the lines before it lowercase to none of the four words. *)
Theorem get_yes_no_answer (lower : string → string) (prompt : string)
    (c c' : console) (b : bool) :
  lower <$> ["y"; "yes"; "n"; "no"] = ["y"; "yes"; "n"; "no"] →
  get_yes_no lower prompt c = Ok (b, c') →
  ∃ skipped line,
    stdin c = skipped ++ line :: stdin c' ∧
    (if b then lower line = "y" ∨ lower line = "yes"
     else lower line = "n" ∨ lower line = "no") ∧
    Forall (λ s, lower s ∉ ["y"; "yes"; "n"; "no"]) skipped.
Proof.
  intros Hfix Hrun. unfold get_yes_no in Hrun.
  destruct (InputHandler.get_choice lower (prompt +:+ " (y/n): ")
              ["y"; "yes"; "n"; "no"] false c)
    as [[choice c1]| |] eqn:Hchoice; try done.
  injection Hrun as <- <-.
  unfold InputHandler.get_choice in Hchoice. rewrite Hfix in Hchoice.
  destruct (get_choice_loop_returns lower _ _ _ _ _ _ _ Hchoice)
    as (skipped & line & Hlines & -> & Hin & Hall & _).
  exists skipped, line. split; [done|]. split; [|done].
  cbn [InputHandler.fold_case] in *.
  rewrite !elem_of_cons, elem_of_nil in Hin.
  case_bool_decide as Hyes; rewrite !elem_of_cons, elem_of_nil in Hyes; tauto.
Qed.

Lemma get_yes_no_answer_witness :
  ∃ skipped line,
    ["maybe"; "YES"; "n"] = skipped ++ line :: ["n"] ∧
    (py_lower line = "y" ∨ py_lower line = "yes") ∧
    Forall (λ s, py_lower s ∉ ["y"; "yes"; "n"; "no"]) skipped.
Proof.
  apply (get_yes_no_answer py_lower "Quit?"
           {| stdin := ["maybe"; "YES"; "n"]; stdout := [] |}
           {| stdin := ["n"];
              stdout := ["Quit? (y/n): ";
                         "Invalid choice. Please choose from: y, yes, n, no";
                         "Quit? (y/n): "] |}
           true).
  - reflexivity.
  - vm_compute. reflexivity.
Defined.

(** ** Further properties of the state store *)

Lemma list_index_position {A : Type} (xs : list A) (i : nat) :
  i < length xs → list_index xs (Z.of_nat i) = xs !! i.
Proof.
  intros Hi. unfold list_index.
  destruct (Z.ltb_spec (Z.of_nat i) 0); [lia|].
  rewrite orb_false_intro by (first [apply Z.ltb_ge | apply Z.leb_gt]; lia).
  by rewrite Nat2Z.id.
Qed.

Lemma perform_history (σ σ' : heap) (self : loc) (g : game_state)
    (d : gmap string value) (hs : list value) (c : call) :
  gs_at σ self g d hs → perform self c σ = Ok (tt, σ') →
  ∃ g' d' hs',
    gs_at σ' self g' d' hs' ∧ length hs' = length hs + count_saves [c].
Proof.
  intros Hgs Hrun. destruct c as [k v|k default| |index]; cbn in Hrun.
  - rewrite (set_run Hgs) in Hrun. injection Hrun as <-.
    do 3 eexists. split; [apply (set_keeps Hgs)|cbn; lia].
  - unfold mbind, M_bind in Hrun. rewrite (get_run Hgs) in Hrun.
    injection Hrun as <-. do 3 eexists. split; [done|cbn; lia].
  - rewrite (save_run Hgs) in Hrun. injection Hrun as <-.
    do 3 eexists. split; [apply (save_keeps Hgs)|].
    rewrite length_app. cbn. lia.
  - destruct (decide (hs = [])) as [Hnil|Hne].
    { rewrite (restore_empty_run Hgs index Hnil) in Hrun.
      injection Hrun as <-. do 3 eexists. split; [done|cbn; lia]. }
    destruct (list_index hs index) as [e|] eqn:Hi.
    + destruct (entry_is_snapshot Hgs index e Hi) as (l & m & -> & _ & Hl).
      rewrite (restore_run Hgs index l m Hi Hl) in Hrun.
      injection Hrun as <-. do 3 eexists.
      split; [apply (restore_keeps Hgs l m Hl)|cbn; lia].
    + by rewrite (restore_out_of_range_run Hgs index Hne Hi) in Hrun.
Qed.

Lemma perform_all_history (cs : list call) :
  ∀ (σ σ' : heap) (self : loc) (g : game_state) (d : gmap string value)
    (hs : list value),
    gs_at σ self g d hs → perform_all self cs σ = Ok (tt, σ') →
    ∃ g' d' hs',
      gs_at σ' self g' d' hs' ∧ length hs' = length hs + count_saves cs.
Proof.
  induction cs as [|c cs IH]; intros σ σ' self g d hs Hgs Hrun.
  - injection Hrun as <-. do 3 eexists. split; [done|cbn; lia].
  - cbn [perform_all] in Hrun. unfold mbind, M_bind at 1 in Hrun.
    destruct (perform self c σ) as [[[] σ1]| |] eqn:Hc; try done.
    destruct (perform_history _ _ _ _ _ _ _ Hgs Hc)
      as (g1 & d1 & hs1 & Hgs1 & Hlen1).
    destruct (IH _ _ _ _ _ _ Hgs1 Hrun) as (g2 & d2 & hs2 & Hgs2 & Hlen2).
    exists g2, d2, hs2. split; [done|].
    rewrite Hlen2, Hlen1. destruct c; cbn; lia.
Qed.

Lemma gs_at_frame (σ σ' : heap) (s : loc) (g : game_state)
    (d : gmap string value) (hs : list value) :
  gs_at σ s g d hs →
  σ' !! s = σ !! s →
  σ' !! data g = σ !! data g →
  σ' !! history g = σ !! history g →
  (∀ l m, VRef l ∈ hs → σ !! l = Some (ODict m) → σ' !! l = Some (ODict m)) →
  gs_at σ' s g d hs ∧ snapshot σ' <$> hs = snapshot σ <$> hs.
Proof.
  intros [Hs Hd Hh He] Es Ed Eh Hkeep.
  rewrite Forall_forall in He. split.
  - split; [congruence..|].
    apply Forall_forall. intros e Hin.
    destruct (He e Hin) as (l & m & -> & Hne & Hl).
    exists l, m. repeat split; [done|]. by apply Hkeep.
  - apply Forall_fmap_ext_1, Forall_forall. intros e Hin.
    destruct (He e Hin) as (l & m & -> & Hne & Hl).
    unfold snapshot, dict_at. by rewrite (Hkeep l m Hin Hl), Hl.
Qed.

(** X7: [GameState()] allocates its objects without touching the objects that
    exist already, and the new store is empty: [get(k, d)] returns [d] for
    every key, the history has no entry, and [restore_checkpoint] does
    nothing. *)
Theorem new_store_is_empty (σ0 : heap) :
  ∃ self σ,
    GameState.__init__ σ0 = Ok (self, σ) ∧
    σ0 !! self = None ∧
    (∀ l o, σ0 !! l = Some o → σ !! l = Some o) ∧
    current σ self = Some ∅ ∧
    entries σ self = Some [] ∧
    (∀ k default, GameState.get self k default σ = Ok (default, σ)) ∧
    (∀ index, GameState.restore_checkpoint self index σ = Ok (tt, σ)).
Proof.
  destruct (init_run σ0) as (self & g & σ & Hinit & Hgs).
  exists self, σ. split; [exact Hinit|].
  unfold GameState.__init__, alloc, mbind, M_bind in Hinit.
  cbv beta iota zeta in Hinit.
  injection Hinit as Hself Hσ.
  set (σ1 := <[fresh (dom σ0) := ODict ∅]> σ0) in *.
  set (σ2 := <[fresh (dom σ1) := OList []]> σ1) in *.
  assert (∀ l o, σ0 !! l = Some o → σ !! l = Some o) as Hkeep.
  { intros l o Hl.
    assert (σ1 !! l = Some o) as Hl1.
    { unfold σ1. rewrite lookup_insert_ne; [done|].
      symmetry. by eapply fresh_not_bound. }
    assert (σ2 !! l = Some o) as Hl2.
    { unfold σ2. rewrite lookup_insert_ne; [done|].
      symmetry. by eapply fresh_not_bound. }
    rewrite <- Hσ. rewrite lookup_insert_ne; [done|].
    symmetry. by eapply fresh_not_bound. }
  split.
  { destruct (σ0 !! self) as [o|] eqn:Hl; [|done].
    pose proof (Hkeep _ _ Hl) as Hl'.
    assert (σ2 !! self = Some o) as Hl2.
    { unfold σ2, σ1. rewrite !lookup_insert_ne; [done|..].
      - intros E. apply (fresh_not_bound _ _ _ Hl). by rewrite <- E.
      - intros E.
        assert (σ1 !! self = Some o) as Hl1.
        { unfold σ1. rewrite lookup_insert_ne; [done|].
          symmetry. by eapply fresh_not_bound. }
        apply (fresh_not_bound _ _ _ Hl1). by rewrite <- E. }
    destruct (fresh_not_bound _ _ _ Hl2). by rewrite Hself. }
  split; [exact Hkeep|].
  split; [apply (current_bound Hgs)|].
  split; [apply (entries_bound Hgs)|].
  split.
  - intros k default. rewrite (get_run Hgs). unfold lookup_default.
    by rewrite lookup_empty.
  - intros index. by apply (restore_empty_run Hgs).
Qed.

(** X8: [set(k, v)] changes the answer of [get] for the key [k] only: for
    every other key, [get] returns afterwards what it returned before. *)
Theorem set_other_key (σ : heap) (self : loc) (g : game_state)
    (d : gmap string value) (hs : list value) (k k' : string) (v : value) :
  gs_at σ self g d hs → k ≠ k' →
  ∃ σ', GameState.set self k v σ = Ok (tt, σ') ∧
        ∀ default,
          fst_result (GameState.get self k' default σ')
          = fst_result (GameState.get self k' default σ).
Proof.
  intros Hgs Hne. eexists. split; [apply (set_run Hgs)|].
  intros default.
  rewrite (get_run (set_keeps Hgs k v)), (get_run Hgs).
  unfold lookup_default. by rewrite lookup_insert_ne.
Qed.

Lemma set_other_key_witness :
  ∃ σ', GameState.set 3%positive "score" (VInt 7) demo_heap = Ok (tt, σ') ∧
        ∀ default,
          fst_result (GameState.get 3%positive "items" default σ')
          = fst_result (GameState.get 3%positive "items" default demo_heap).
Proof.
  apply (set_other_key _ _ _ _ _ "score" "items" (VInt 7) demo_heap_wf).
  discriminate.
Defined.

(** X9: of two [set] calls on one key the later one wins, leaving the store
    exactly as the later call alone would; and [set] calls on different keys
    can be swapped without changing the resulting store. *)
Theorem set_last_write_wins (σ : heap) (self : loc) (g : game_state)
    (d : gmap string value) (hs : list value) (k k' : string)
    (v v' : value) :
  gs_at σ self g d hs →
  (GameState.set self k v;; GameState.set self k v') σ
    = GameState.set self k v' σ ∧
  (k ≠ k' →
   (GameState.set self k v;; GameState.set self k' v') σ
     = (GameState.set self k' v';; GameState.set self k v) σ).
Proof.
  intros Hgs.
  pose proof (set_keeps Hgs k v) as Hgs1.
  pose proof (set_keeps Hgs k' v') as Hgs2.
  split.
  - unfold mbind, M_bind. rewrite (set_run Hgs k v), (set_run Hgs1 k v').
    rewrite (set_run Hgs k v'). by rewrite !insert_insert_eq.
  - intros Hne. unfold mbind, M_bind.
    rewrite (set_run Hgs k v), (set_run Hgs1 k' v').
    rewrite (set_run Hgs k' v'), (set_run Hgs2 k v).
    rewrite !insert_insert_eq. by rewrite (insert_insert_ne d k k').
Qed.

Lemma set_last_write_wins_witness :
  (GameState.set 3%positive "score" (VInt 1);;
   GameState.set 3%positive "score" (VInt 2)) demo_heap
    = GameState.set 3%positive "score" (VInt 2) demo_heap ∧
  ("score" ≠ "lives" →
   (GameState.set 3%positive "score" (VInt 1);;
    GameState.set 3%positive "lives" (VInt 2)) demo_heap
     = (GameState.set 3%positive "lives" (VInt 2);;
        GameState.set 3%positive "score" (VInt 1)) demo_heap).
Proof.
  exact (set_last_write_wins _ _ _ _ _ "score" "lives" (VInt 1) (VInt 2)
           demo_heap_wf).
Defined.

(** X10: a non-negative index counts the checkpoints from the oldest one:
    [restore_checkpoint(i)] with [0 <= i < len(history)] makes the current
    mapping the bindings of the [i]-th saved snapshot. *)
Theorem restore_by_position (σ : heap) (self : loc) (g : game_state)
    (d : gmap string value) (hs : list value) (i : nat) :
  gs_at σ self g d hs → i < length hs →
  ∃ e m σ',
    hs !! i = Some e ∧ snapshot σ e = Some m ∧
    GameState.restore_checkpoint self (Z.of_nat i) σ = Ok (tt, σ') ∧
    current σ' self = Some m ∧
    ∀ k default,
      GameState.get self k default σ' = Ok (lookup_default m k default, σ').
Proof.
  intros Hgs Hi.
  destruct (lookup_lt_is_Some_2 hs i Hi) as [e He].
  assert (list_index hs (Z.of_nat i) = Some e) as Hidx
    by (by rewrite list_index_position).
  destruct (restore_at _ _ _ _ _ _ _ Hgs Hidx)
    as (m & σ' & Hm & Hrun & Hgs' & _).
  exists e, m, σ'. repeat split; try done.
  - apply (current_bound Hgs').
  - intros k default. apply (get_run Hgs').
Qed.

Lemma restore_by_position_witness :
  ∃ e m σ',
    [VRef 4%positive] !! 0 = Some e ∧ snapshot demo_heap e = Some m ∧
    GameState.restore_checkpoint 3%positive (Z.of_nat 0) demo_heap
      = Ok (tt, σ') ∧
    current σ' 3%positive = Some m ∧
    ∀ k default,
      GameState.get 3%positive k default σ'
        = Ok (lookup_default m k default, σ').
Proof.
  apply (restore_by_position _ _ _ _ _ 0 demo_heap_wf). simpl. lia.
Defined.

(** X11: restoring installs a copy of the snapshot, not the snapshot
    itself.  After [restore_checkpoint(index)], any sequence of [set] calls
    changes the current mapping only; the history keeps its bindings, and
    restoring the same index again brings back the snapshot's bindings. *)
Theorem restore_is_a_copy (σ : heap) (self : loc) (g : game_state)
    (d : gmap string value) (hs : list value) (index : Z) (e : value)
    (kvs : list (string * value)) :
  gs_at σ self g d hs → list_index hs index = Some e →
  ∃ m σ1 σ2 σ3,
    snapshot σ e = Some m ∧
    GameState.restore_checkpoint self index σ = Ok (tt, σ1) ∧
    set_many self kvs σ1 = Ok (tt, σ2) ∧
    current σ2 self = Some (assign_all m kvs) ∧
    history_view σ2 self = history_view σ self ∧
    GameState.restore_checkpoint self index σ2 = Ok (tt, σ3) ∧
    current σ3 self = Some m.
Proof.
  intros Hgs Hi.
  destruct (restore_at _ _ _ _ _ _ _ Hgs Hi)
    as (m & σ1 & Hm & Hrun1 & Hgs1 & Hframe1).
  destruct (set_many_run kvs _ _ _ _ _ Hgs1) as [Hrun2 Hgs2].
  set (g1 := {| data := fresh (dom σ); history := history g |}) in *.
  set (σ2 := <[data g1 := ODict (assign_all m kvs)]> σ1) in *.
  assert (dict_frame g1 σ1 σ2) as Hframe2 by apply set_frame.
  destruct (restore_at _ _ _ _ _ _ _ Hgs2 Hi)
    as (m' & σ3 & Hm' & Hrun3 & Hgs3 & _).
  assert (m' = m) as ->.
  { pose proof (entry_is_snapshot Hgs index e Hi) as Hsnap.
    pose proof (entry_is_snapshot Hgs1 index e Hi) as Hsnap1.
    rewrite (snapshot_frame σ2 e Hframe2 Hsnap1) in Hm'.
    rewrite (snapshot_frame σ1 e Hframe1 Hsnap) in Hm'. congruence. }
  exists m, σ1, σ2, σ3.
  split; [done|]. split; [done|]. split; [done|].
  split; [apply (current_bound Hgs2)|].
  split; [|split; [done|apply (current_bound Hgs3)]].
  rewrite (history_view_bound Hgs2), (history_view_bound Hgs). f_equal.
  rewrite (snapshots_frame Hgs1 σ2 Hframe2).
  apply (snapshots_frame Hgs σ1 Hframe1).
Qed.

Lemma restore_is_a_copy_witness :
  ∃ m σ1 σ2 σ3,
    snapshot demo_heap (VRef 4%positive) = Some m ∧
    GameState.restore_checkpoint 3%positive (-1) demo_heap = Ok (tt, σ1) ∧
    set_many 3%positive [("score", VInt 5)] σ1 = Ok (tt, σ2) ∧
    current σ2 3%positive = Some (assign_all m [("score", VInt 5)]) ∧
    history_view σ2 3%positive = history_view demo_heap 3%positive ∧
    GameState.restore_checkpoint 3%positive (-1) σ2 = Ok (tt, σ3) ∧
    current σ3 3%positive = Some m.
Proof.
  apply (restore_is_a_copy _ _ _ _ _ (-1) (VRef 4%positive)
           [("score", VInt 5)] demo_heap_wf).
  reflexivity.
Defined.

(** X12: the store invariant.  After the constructor and any sequence of
    method calls that returned normally, [self.data] refers to a dict,
    [self.history] to a list, and every history entry refers to a dict that
    is not the live one. *)
Theorem constructed_store_invariant (σ0 σ1 σ' : heap) (self : loc)
    (cs : list call) :
  GameState.__init__ σ0 = Ok (self, σ1) →
  perform_all self cs σ1 = Ok (tt, σ') →
  ∃ g d hs,
    σ' !! self = Some (OGameState g) ∧
    σ' !! data g = Some (ODict d) ∧
    σ' !! history g = Some (OList hs) ∧
    Forall (λ e, ∃ l m, e = VRef l ∧ l ≠ data g ∧
                        σ' !! l = Some (ODict m)) hs.
Proof.
  intros Hinit Hrun.
  destruct (init_run σ0) as (self' & g & σ1' & Hinit' & Hgs).
  rewrite Hinit in Hinit'. injection Hinit' as <- <-.
  destruct (perform_all_keeps cs _ _ _ _ _ _ Hgs Hrun)
    as (g' & d' & hs' & [Hs Hd Hh He]).
  by exists g', d', hs'.
Qed.

Lemma constructed_store_invariant_witness :
  ∃ g d hs,
    played_heap !! 3%positive = Some (OGameState g) ∧
    played_heap !! data g = Some (ODict d) ∧
    played_heap !! history g = Some (OList hs) ∧
    Forall (λ e, ∃ l m, e = VRef l ∧ l ≠ data g ∧
                        played_heap !! l = Some (ODict m)) hs.
Proof.
  apply (constructed_store_invariant ∅
           (<[3%positive := OGameState demo_game]>
              (<[2%positive := OList []]> (<[1%positive := ODict ∅]> ∅)))
           played_heap 3%positive played_calls).
  - vm_compute. reflexivity.
  - vm_compute. reflexivity.
Defined.

(** X13: the history grows by [save_checkpoint] alone.  After the
    constructor and any sequence of method calls that returned normally, the
    history has exactly as many entries as [save_checkpoint] was called;
    [set], [get] and [restore_checkpoint] never add or remove one. *)
Theorem history_counts_saves (σ0 σ1 σ' : heap) (self : loc)
    (cs : list call) :
  GameState.__init__ σ0 = Ok (self, σ1) →
  perform_all self cs σ1 = Ok (tt, σ') →
  ∃ hs, entries σ' self = Some hs ∧ length hs = count_saves cs.
Proof.
  intros Hinit Hrun.
  destruct (init_run σ0) as (self' & g & σ1' & Hinit' & Hgs).
  rewrite Hinit in Hinit'. injection Hinit' as <- <-.
  destruct (perform_all_history cs _ _ _ _ _ _ Hgs Hrun)
    as (g' & d' & hs' & Hgs' & Hlen).
  exists hs'. split; [apply (entries_bound Hgs')|exact Hlen].
Qed.

Lemma history_counts_saves_witness :
  ∃ hs, entries played_heap 3%positive = Some hs ∧
        length hs = count_saves played_calls.
Proof.
  apply (history_counts_saves ∅
           (<[3%positive := OGameState demo_game]>
              (<[2%positive := OList []]> (<[1%positive := ODict ∅]> ∅)))
           played_heap 3%positive played_calls).
  - vm_compute. reflexivity.
  - vm_compute. reflexivity.
Defined.

(** X14: two stores that share no dict and no list do not interfere.  A
    method call on one of them that returns normally leaves the other with
    the same current mapping, the same history entries and the same bindings
    in each entry, and the two stores are still separate afterwards. *)
Theorem stores_independent (σ σ' : heap) (s1 s2 : loc)
    (g1 g2 : game_state) (d1 d2 : gmap string value)
    (hs1 hs2 : list value) (c : call) :
  separate σ s1 s2 g1 g2 d1 d2 hs1 hs2 →
  perform s1 c σ = Ok (tt, σ') →
  current σ' s2 = Some d2 ∧
  entries σ' s2 = Some hs2 ∧
  history_view σ' s2 = history_view σ s2 ∧
  ∃ g1' d1' hs1', separate σ' s1 s2 g1' g2 d1' d2 hs1' hs2.
Proof.
  intros [H1 H2 Hdd Hhh He1 He2] Hrun.
  assert (∀ σ'' g1' d1' hs1',
    gs_at σ'' s1 g1' d1' hs1' →
    data g1' ≠ data g2 → history g1' ≠ history g2 →
    Forall (λ e, e ≠ VRef (data g2)) hs1' →
    Forall (λ e, e ≠ VRef (data g1')) hs2 →
    gs_at σ'' s2 g2 d2 hs2 ∧ snapshot σ'' <$> hs2 = snapshot σ <$> hs2 →
    current σ'' s2 = Some d2 ∧
    entries σ'' s2 = Some hs2 ∧
    history_view σ'' s2 = history_view σ s2 ∧
    ∃ g1'' d1'' hs1'', separate σ'' s1 s2 g1'' g2 d1'' d2 hs1'' hs2)
    as Hpack.
  { intros σ'' g1' d1' hs1' H1' Hdd' Hhh' He1' He2' [H2' Hview].
    split; [apply (current_bound H2')|].
    split; [apply (entries_bound H2')|].
    split; [by rewrite (history_view_bound H2'), (history_view_bound H2),
              Hview|].
    exists g1', d1', hs1'. by split. }
  pose proof H1 as [Hs1 Hd1 Hh1 Hsn1]. pose proof H2 as [Hs2 Hd2 Hh2 Hsn2].
  assert (s1 ≠ s2) as Hss by (intros ->; congruence).
  pose proof (fresh_not_bound _ _ _ Hs2) as Fs2.
  pose proof (fresh_not_bound _ _ _ Hd2) as Fd2.
  pose proof (fresh_not_bound _ _ _ Hh2) as Fh2.
  rewrite Forall_forall in He2.
  assert (∀ l m, VRef l ∈ hs2 → σ !! l = Some (ODict m) →
                 l ≠ data g1 ∧ l ≠ history g1 ∧ l ≠ s1 ∧
                 l ≠ fresh (dom σ)) as Hl2.
  { intros l m Hin Hl. pose proof (fresh_not_bound _ _ _ Hl).
    pose proof (He2 _ Hin). repeat split; congruence. }
  destruct c as [k v|k default| |index]; cbn in Hrun.
  - rewrite (set_run H1) in Hrun. injection Hrun as <-.
    apply (Hpack _ _ _ _ (set_keeps H1 k v)); try done.
    { by apply Forall_forall. }
    apply (gs_at_frame σ); try done;
      try (rewrite lookup_insert_ne; [done|congruence]).
    intros l m Hin Hl. destruct (Hl2 l m Hin Hl) as (? & ? & ? & ?).
    by rewrite lookup_insert_ne.
  - unfold mbind, M_bind in Hrun. rewrite (get_run H1) in Hrun.
    injection Hrun as <-.
    apply (Hpack _ _ _ _ H1); try done. by apply Forall_forall.
  - rewrite (save_run H1) in Hrun. injection Hrun as <-.
    apply (Hpack _ _ _ _ (save_keeps H1)); try done.
    { apply Forall_app. split; [done|].
      apply Forall_singleton. congruence. }
    { by apply Forall_forall. }
    apply (gs_at_frame σ); try done;
      try (rewrite !lookup_insert_ne; [done|congruence..]).
    intros l m Hin Hl. destruct (Hl2 l m Hin Hl) as (? & ? & ? & ?).
    by rewrite !lookup_insert_ne.
  - destruct (decide (hs1 = [])) as [Hnil|Hne].
    { rewrite (restore_empty_run H1 index Hnil) in Hrun.
      injection Hrun as <-.
      apply (Hpack _ _ _ _ H1); try done. by apply Forall_forall. }
    destruct (list_index hs1 index) as [e|] eqn:Hi.
    + destruct (entry_is_snapshot H1 index e Hi) as (l & m & -> & _ & Hl).
      rewrite (restore_run H1 index l m Hi Hl) in Hrun.
      injection Hrun as <-.
      apply (Hpack _ _ _ _ (restore_keeps H1 l m Hl)); cbn [data history];
        try done.
      { apply Forall_forall. intros e Hin.
        rewrite Forall_forall in Hsn2.
        destruct (Hsn2 e Hin) as (l' & m' & -> & _ & Hl').
        pose proof (fresh_not_bound _ _ _ Hl'). congruence. }
      apply (gs_at_frame σ); try done;
        try (rewrite !lookup_insert_ne; [done|congruence..]).
      intros l' m' Hin Hl'. destruct (Hl2 l' m' Hin Hl') as (? & ? & ? & ?).
      by rewrite !lookup_insert_ne.
    + by rewrite (restore_out_of_range_run H1 index Hne Hi) in Hrun.
Qed.

Lemma two_heap_separate :
  separate two_heap 3%positive 6%positive
    {| data := 1%positive; history := 2%positive |}
    {| data := 4%positive; history := 5%positive |}
    (<["score" := VInt 1]> ∅) (<["score" := VInt 2]> ∅)
    [] [VRef 7%positive].
Proof.
  split; try done.
  - split; [reflexivity..|].
    repeat constructor. exists 7%positive, ∅. by repeat split.
  - repeat constructor. discriminate.
Qed.

Lemma stores_independent_witness :
  current (<[1%positive := ODict (<["score" := VInt 9]>
                                    (<["score" := VInt 1]> ∅))]> two_heap)
    6%positive = Some (<["score" := VInt 2]> ∅) ∧
  entries (<[1%positive := ODict (<["score" := VInt 9]>
                                    (<["score" := VInt 1]> ∅))]> two_heap)
    6%positive = Some [VRef 7%positive] ∧
  history_view (<[1%positive := ODict (<["score" := VInt 9]>
                                         (<["score" := VInt 1]> ∅))]> two_heap)
    6%positive = history_view two_heap 6%positive ∧
  ∃ g1' d1' hs1',
    separate (<[1%positive := ODict (<["score" := VInt 9]>
                                       (<["score" := VInt 1]> ∅))]> two_heap)
      3%positive 6%positive g1'
      {| data := 4%positive; history := 5%positive |}
      d1' (<["score" := VInt 2]> ∅) hs1' [VRef 7%positive].
Proof.
  apply (stores_independent two_heap _ 3%positive 6%positive _ _ _ _ _ _
           (CallSet "score" (VInt 9)) two_heap_separate).
  reflexivity.
Defined.

(** ** Properties of the text layout *)

Lemma string_length_app (a b : string) :
  String.length (a +:+ b) = String.length a + String.length b.
Proof.
  induction a as [|x a IH]; [done|].
  change (S (String.length (a +:+ b))
          = S (String.length a + String.length b)).
  by rewrite IH.
Qed.

Lemma string_app_assoc (a b c : string) :
  (a +:+ b) +:+ c = a +:+ b +:+ c.
Proof.
  induction a as [|x a IH]; [done|].
  change (String x ((a +:+ b) +:+ c) = String x (a +:+ b +:+ c)).
  by rewrite IH.
Qed.

Lemma string_app_nil_r (a : string) : a +:+ "" = a.
Proof.
  induction a as [|x a IH]; [done|].
  change (String x (a +:+ "") = String x a). by rewrite IH.
Qed.

Lemma len_app (a b : string) : len (a +:+ b) = (len a + len b)%Z.
Proof. unfold len. rewrite string_length_app. lia. Qed.

Lemma len_nonneg (a : string) : (0 ≤ len a)%Z.
Proof. unfold len. lia. Qed.

Lemma len_str_mul (s : string) (n : Z) :
  len (str_mul s n) = (Z.max 0 n * len s)%Z.
Proof.
  unfold str_mul.
  assert (∀ k, len (str_repeat s k) = (Z.of_nat k * len s)%Z) as Hrep.
  { induction k as [|k IH]; [done|].
    cbn [str_repeat]. rewrite len_app, IH. lia. }
  rewrite Hrep. lia.
Qed.

Lemma len_spaces (n : Z) : len (str_mul " " n) = Z.max 0 n.
Proof. rewrite len_str_mul. change (len " ") with 1%Z. lia. Qed.

Lemma len_ljust (s : string) (width : Z) :
  len (ljust s width) = Z.max (len s) width.
Proof.
  unfold ljust. destruct (Z.leb_spec width (len s)); [lia|].
  rewrite len_app, len_spaces. lia.
Qed.

(** The bit trick of [center]: the extra space of an odd margin. *)
Lemma center_extra (marg width : Z) :
  Z.land (Z.land marg width) 1 = Z.b2z (Z.odd marg && Z.odd width).
Proof.
  change 1%Z with (Z.ones 1) at 1. rewrite Z.land_ones by lia.
  change (2 ^ 1)%Z with 2%Z. rewrite <- Z.bit0_mod. f_equal.
  by rewrite Z.land_spec, !Z.bit0_odd.
Qed.

Lemma center_padding (marg width : Z) :
  (0 < marg)%Z →
  let left := (marg / 2 + Z.land (Z.land marg width) 1)%Z in
  (0 ≤ left ≤ marg)%Z ∧
  (left ≤ marg - left + 1)%Z ∧ (marg - left ≤ left + 1)%Z ∧
  (marg - left < left → Z.odd width = true)%Z ∧
  (left < marg - left → Z.even width = true)%Z.
Proof.
  intros Hpos left. subst left. rewrite center_extra.
  pose proof (Z.div_mod marg 2 ltac:(lia)) as Hdm.
  pose proof (Z.mod_pos_bound marg 2 ltac:(lia)) as Hmod.
  rewrite <- Z.negb_odd.
  destruct (Z.odd marg) eqn:Hodd, (Z.odd width) eqn:Hw; cbn [andb Z.b2z negb];
    rewrite Zodd_mod in Hodd;
    destruct (Z.eqb_spec (marg mod 2) 1) as [Hm|Hm]; try done;
    repeat split; try lia; intros; try done; lia.
Qed.

Lemma len_center (s : string) (width : Z) :
  len (center s width) = Z.max (len s) width.
Proof.
  unfold center. destruct (Z.leb_spec width (len s)); [lia|].
  destruct (center_padding (width - len s) width ltac:(lia))
    as ([? ?] & _).
  rewrite !len_app, !len_spaces. lia.
Qed.

(** X15: [center_text] returns the text between two runs of spaces that
    together fill it up to the width (the terminal's columns when no width
    is passed); the two runs differ by at most one space, the longer one on
    the left when the width is odd and on the right when it is even; a text
    at least as long as the width comes back unchanged. *)
Theorem center_text_balanced (t : terminal) (text : string)
    (width : option Z) :
  let w := match width with
           | None => fst (ConsoleUtil.get_size t)
           | Some w => w
           end in
  ∃ left right : nat,
    ConsoleUtil.center_text t text width
      = str_repeat " " left +:+ text +:+ str_repeat " " right ∧
    Z.of_nat (left + right) = Z.max 0 (w - len text) ∧
    left ≤ right + 1 ∧ right ≤ left + 1 ∧
    (right < left → Z.odd w = true) ∧
    (left < right → Z.even w = true) ∧
    len (ConsoleUtil.center_text t text width) = Z.max (len text) w ∧
    ((w ≤ len text)%Z → ConsoleUtil.center_text t text width = text).
Proof.
  intros w. unfold ConsoleUtil.center_text. fold w.
  pose proof (len_center text w) as Hlen.
  unfold center in *. destruct (Z.leb_spec w (len text)) as [Hle|Hlt].
  - exists 0, 0. cbn [str_repeat].
    change ("" +:+ text +:+ "") with (text +:+ "").
    rewrite string_app_nil_r. repeat split; try done; lia.
  - destruct (center_padding (w - len text) w ltac:(lia))
      as ([? ?] & ? & ? & Hodd & Heven).
    set (left := ((w - len text) / 2
                  + Z.land (Z.land (w - len text) w) 1)%Z) in *.
    exists (Z.to_nat left), (Z.to_nat (w - len text - left)).
    split; [done|]. split; [lia|]. split; [lia|]. split; [lia|].
    split; [intros; apply Hodd; lia|].
    split; [intros; apply Heven; lia|].
    split; [exact Hlen|lia].
Qed.

Section layout.
Import ConsoleUtil.
Variable split : string → list string.

Lemma len_boxed_left (char : string) (cw padding : Z) (line : string) :
  len char = 1%Z → (len line ≤ cw + 2 * padding)%Z →
  len (boxed_left char cw padding line) = (cw + 2 * padding + 2)%Z.
Proof.
  intros Hc Hl. unfold boxed_left. rewrite !len_app, len_ljust. lia.
Qed.

Lemma wrap_fit (char : string) (cw padding : Z) (words : list string) :
  len char = 1%Z → (1 ≤ padding)%Z →
  Forall (λ word, len word + 1 ≤ cw + 2 * padding)%Z words →
  ∀ current_line,
    (len current_line ≤ cw + 2 * padding)%Z →
    Forall (λ l, len l = cw + 2 * padding + 2)%Z
      (wrap char cw padding words current_line).
Proof.
  intros Hc Hp Hwords.
  induction Hwords as [|word rest Hword _ IH]; intros current_line Hcur.
  - cbn [wrap]. case_bool_decide; constructor; [|done].
    by apply len_boxed_left.
  - cbn [wrap]. destruct (Z.leb_spec (len (current_line +:+ word)) cw).
    + apply IH. rewrite <- string_app_assoc, len_app.
      change (len " ") with 1%Z. lia.
    + constructor; [by apply len_boxed_left|].
      apply IH. rewrite len_app. change (len " ") with 1%Z. lia.
Qed.

Lemma line_of_snoc (group : list string) (word : string) :
  line_of (group ++ [word]) = line_of group +:+ word +:+ " ".
Proof.
  induction group as [|w group IH].
  - change (word +:+ " " +:+ "" = "" +:+ word +:+ " ").
    by rewrite string_app_nil_r.
  - change (w +:+ " " +:+ line_of (group ++ [word])
            = (w +:+ " " +:+ line_of group) +:+ word +:+ " ").
    by rewrite IH, !string_app_assoc.
Qed.

Lemma line_of_empty (group : list string) : line_of group = "" → group = [].
Proof.
  destruct group as [|w group]; [done|]. intros E.
  assert (len (line_of (w :: group)) = 0%Z) as Hl by (by rewrite E).
  change (line_of (w :: group)) with (w +:+ " " +:+ line_of group) in Hl.
  rewrite !len_app in Hl. change (len " ") with 1%Z in Hl.
  pose proof (len_nonneg w). pose proof (len_nonneg (line_of group)). lia.
Qed.

Lemma wrap_groups (char : string) (cw padding : Z) (words : list string) :
  ∀ group : list string,
    (2 ≤ length group → (len (line_of group) ≤ cw + 1)%Z) →
    ∃ groups,
      concat groups = group ++ words ∧
      wrap char cw padding words (line_of group)
        = (λ g, boxed_left char cw padding (line_of g)) <$> groups ∧
      Forall (λ g, 2 ≤ length g → (len (line_of g) ≤ cw + 1)%Z) groups ∧
      (group ≠ [] → Forall (λ g, g ≠ []) groups) ∧
      Forall (λ g, g ≠ []) (tail groups).
Proof.
  induction words as [|word rest IH]; intros group Hfit.
  - cbn [wrap]. case_bool_decide as Hempty.
    + apply line_of_empty in Hempty as ->. exists []. by repeat split.
    + exists [group]. rewrite app_nil_r. cbn.
      split; [by rewrite app_nil_r|]. split; [done|].
      split; [by constructor|].
      split; [by repeat constructor|constructor].
  - cbn [wrap]. destruct (Z.leb_spec (len (line_of group +:+ word)) cw).
    + destruct (IH (group ++ [word])) as (groups & Hcat & Hwrap & Hall & Hne & Htl).
      { intros _. rewrite line_of_snoc, <- string_app_assoc, len_app.
        change (len " ") with 1%Z. lia. }
      exists groups. rewrite <- app_assoc in Hcat.
      rewrite line_of_snoc, <- string_app_assoc in Hwrap.
      rewrite <- string_app_assoc.
      split; [done|]. split; [done|]. split; [done|].
      split; [|done]. intros _. apply Hne. by destruct group.
    + destruct (IH [word]) as (groups & Hcat & Hwrap & Hall & Hne & Htl).
      { cbn. lia. }
      exists (group :: groups). cbn [concat fmap list_fmap tail].
      cbn [line_of foldr] in Hwrap. rewrite string_app_nil_r in Hwrap.
      split; [by rewrite Hcat|]. split; [by rewrite Hwrap|].
      split; [by constructor|].
      split; [|by apply Hne].
      intros Hg. constructor; [done|by apply Hne].
Qed.

End layout.

Lemma get_size_nonneg (t : terminal) : (0 ≤ fst (ConsoleUtil.get_size t))%Z.
Proof. destruct t as [[columns lines]|]; cbn; lia. Qed.

Lemma split_on_absent (sep : ascii) (s : string) :
  (∀ a, a ∈ String.list_ascii_of_string s → a ≠ sep) →
  split_on sep s = [s].
Proof.
  induction s as [|a s IH]; intros Habs; [done|].
  cbn [split_on].
  destruct (Ascii.eqb_spec a sep) as [->|Hne].
  - destruct (Habs sep); [by left|done].
  - rewrite IH; [done|]. intros b Hb. apply Habs. by right.
Qed.

(** X16: [print_box] writes a top border, the body and a bottom border.
    When [char] is one character, [padding] is at least 1 and, in every line
    that is wrapped, each word is at most [width - 3] characters long, every
    line written is exactly as wide as the terminal. *)
Theorem print_box_lines_fit (split : string → list string) (t : terminal)
    (text char : string) (padding : Z) (c : console) :
  let width := fst (ConsoleUtil.get_size t) in
  let cw := (width - 2 * padding - 2)%Z in
  len char = 1%Z → (1 ≤ padding)%Z →
  (∀ line word,
     line ∈ split_on "010" text → (cw < len line)%Z → word ∈ split line →
     (len word + 3 ≤ width)%Z) →
  ∃ body,
    stdout (ConsoleUtil.print_box split t text char padding c)
      = stdout c ++ [str_mul char width] ++ body ++ [str_mul char width] ∧
    stdin (ConsoleUtil.print_box split t text char padding c) = stdin c ∧
    len (str_mul char width) = width ∧
    Forall (λ l, len l = width) body.
Proof.
  intros width cw Hc Hp Hwords.
  pose proof (get_size_nonneg t) as Hw. fold width in Hw.
  exists (concat (ConsoleUtil.box_line split char cw padding
                    <$> split_on "010" text)).
  split; [done|]. split; [done|].
  split; [rewrite len_str_mul; lia|].
  apply Forall_concat, Forall_fmap, Forall_forall. intros line Hline.
  unfold ConsoleUtil.box_line, compose. rewrite Z.gtb_ltb.
  destruct (Z.ltb_spec cw (len line)) as [Hlong|Hshort].
  - specialize (Hwords line).
    destruct (split line) as [|word rest] eqn:Hsplit.
    { cbn. constructor. }
    assert (Forall (λ w, len w + 1 ≤ cw + 2 * padding)%Z (word :: rest))
      as Hfit.
    { apply Forall_forall. intros w Hin.
      specialize (Hwords w Hline Hlong Hin). lia. }
    replace width with (cw + 2 * padding + 2)%Z by lia.
    apply (wrap_fit char cw padding _ Hc Hp Hfit).
    inversion Hfit as [|? ? Hfirst _]; subst.
    pose proof (len_nonneg word). change (len "") with 0%Z. lia.
  - constructor; [|done]. unfold ConsoleUtil.boxed_center.
    rewrite !len_app, len_center. pose proof (len_nonneg line). lia.
Qed.

Lemma print_box_lines_fit_witness :
  ∃ body,
    stdout (ConsoleUtil.print_box String.words (Some (20, 5))
              "the quick brown fox jumps over the lazy dog" "=" 2
              {| stdin := []; stdout := [] |})
      = [] ++ [str_mul "=" 20] ++ body ++ [str_mul "=" 20] ∧
    stdin (ConsoleUtil.print_box String.words (Some (20, 5))
             "the quick brown fox jumps over the lazy dog" "=" 2
             {| stdin := []; stdout := [] |}) = [] ∧
    len (str_mul "=" 20) = 20%Z ∧
    Forall (λ l, len l = 20%Z) body.
Proof.
  apply (print_box_lines_fit String.words (Some (20, 5))
           "the quick brown fox jumps over the lazy dog" "=" 2
           {| stdin := []; stdout := [] |}).
  - reflexivity.
  - lia.
  - intros line word Hline _ Hword.
    apply list_elem_of_singleton in Hline as ->.
    vm_compute in Hword.
    repeat (apply elem_of_cons in Hword as [->|Hword]; [by vm_compute|]).
    by apply elem_of_nil in Hword.
Defined.

(** X17: wrapping a line that is longer than [content_width] keeps its
    words.  The printed lines are the words cut into consecutive groups, each
    group written as its words followed by a space each and boxed; no word is
    dropped, repeated, reordered or broken, a line carries two or more words
    only when without the last space they fit in [content_width], and only
    the first printed line can be without a word. *)
Theorem wrap_keeps_words (split : string → list string) (char : string)
    (cw padding : Z) (line : string) :
  (cw < len line)%Z →
  ∃ groups,
    concat groups = split line ∧
    ConsoleUtil.box_line split char cw padding line
      = (λ g, ConsoleUtil.boxed_left char cw padding (line_of g))
          <$> groups ∧
    Forall (λ g, 2 ≤ length g → (len (line_of g) ≤ cw + 1)%Z) groups ∧
    Forall (λ g, g ≠ []) (tail groups).
Proof.
  intros Hlong. unfold ConsoleUtil.box_line. rewrite Z.gtb_ltb.
  destruct (Z.ltb_spec cw (len line)) as [_|?]; [|lia].
  destruct (wrap_groups char cw padding (split line) [])
    as (groups & Hcat & Hwrap & Hall & _ & Htl).
  { cbn. lia. }
  by exists groups.
Qed.

Lemma wrap_keeps_words_witness :
  ∃ groups,
    concat groups
      = String.words "the quick brown fox jumps over the lazy dog" ∧
    ConsoleUtil.box_line String.words "=" 14 2
        "the quick brown fox jumps over the lazy dog"
      = (λ g, ConsoleUtil.boxed_left "=" 14 2 (line_of g)) <$> groups ∧
    Forall (λ g, 2 ≤ length g → (len (line_of g) ≤ 14 + 1)%Z) groups ∧
    Forall (λ g, g ≠ []) (tail groups).
Proof.
  apply (wrap_keeps_words String.words "=" 14 2
           "the quick brown fox jumps over the lazy dog").
  by vm_compute.
Defined.

(** X18: for a title without a line break that is at most [width - 6]
    characters long, [print_header] writes exactly three lines: a border of
    [width] equals signs, the title centred between two equals signs, and the
    border again; each is exactly as wide as the terminal. *)
Theorem print_header_short_title (split : string → list string)
    (t : terminal) (title : string) (c : console) :
  let width := fst (ConsoleUtil.get_size t) in
  (∀ a, a ∈ String.list_ascii_of_string title → a ≠ "010"%char) →
  (len title ≤ width - 6)%Z →
  stdout (print_header split t title c)
    = stdout c ++ [str_mul "=" width;
                   "=" +:+ center title (width - 2) +:+ "=";
                   str_mul "=" width] ∧
  stdin (print_header split t title c) = stdin c ∧
  len (str_mul "=" width) = width ∧
  len ("=" +:+ center title (width - 2) +:+ "=") = width.
Proof.
  intros width Hline Hshort.
  pose proof (get_size_nonneg t) as Hw. fold width in Hw.
  unfold print_header, ConsoleUtil.print_box, ConsoleUtil.box_lines.
  cbn [stdout stdin]. fold width.
  rewrite (split_on_absent _ _ Hline). cbn [fmap list_fmap concat].
  unfold ConsoleUtil.box_line. rewrite Z.gtb_ltb.
  destruct (Z.ltb_spec (width - 2 * 2 - 2) (len title)) as [?|_]; [lia|].
  unfold ConsoleUtil.boxed_center.
  replace (width - 2 * 2 - 2 + 2 * 2)%Z with (width - 2)%Z by lia.
  split; [done|]. split; [done|].
  split; [rewrite len_str_mul; change (len "=") with 1%Z; lia|].
  rewrite !len_app, len_center. change (len "=") with 1%Z.
  pose proof (len_nonneg title). lia.
Qed.

Lemma print_header_short_title_witness :
  stdout (print_header String.words None "Game Setup"
            {| stdin := []; stdout := [] |})
    = [] ++ [str_mul "=" 80;
             "=" +:+ center "Game Setup" (80 - 2) +:+ "=";
             str_mul "=" 80] ∧
  stdin (print_header String.words None "Game Setup"
           {| stdin := []; stdout := [] |}) = [] ∧
  len (str_mul "=" 80) = 80%Z ∧
  len ("=" +:+ center "Game Setup" (80 - 2) +:+ "=") = 80%Z.
Proof.
  apply (print_header_short_title String.words None "Game Setup"
           {| stdin := []; stdout := [] |}).
  - intros a Ha. vm_compute in Ha.
    repeat (apply elem_of_cons in Ha as [->|Ha]; [discriminate|]).
    by apply elem_of_nil in Ha.
  - by vm_compute.
Defined.
